(** * fconv/fkrelu.cpp: the K-ReLU relaxation driver of ELINA, embedded in Rocq

    The development follows the translation unit [fkrelu.cpp] function by
    function: [transpose_incidence], [relu_1], [verify_fkrelu_input],
    [fkrelu] and [krelu_with_cdd].

    - [double] is IEEE-754 binary64, given by the standard library's
      executable specification [SpecFloat] (precision 53, emax 1024), so
      rounding, underflow, infinities and NaN are those of the machine.
    - [ASRTF(c, msg)] raises; [assert(c && msg)] aborts (the translation
      unit does not define NDEBUG).  Both end the call and are kept apart in
      [failure].  An index outside its container is the third way a call
      can go wrong.
    - [int] variables are integers ([Z]); the one conversion of an unbounded
      [Eigen::Index] to [int], [K = A.cols() - 1], is written out with
      [to_int]; sizes of containers are taken below 2^31, where the casts
      [(int) v.size()] change nothing.
    - [mpq_t] scalars are exact rationals ([Q]); a [bset] is the list of its
      bits; a [std::map] keyed by quadrants is a [gmap], traversed in the
      order of [map_to_list] (each key once; the order only decides which
      of several failures is met first and in which order the generator
      rows of [krelu_with_cdd] are laid out).
    - Functions declared in headers that are not part of the translation
      unit (octahedron.h, split_in_quadrants.h, decomposition.h, pdd.h,
      mpq.h, cddlib) are the fields of the class [Collaborators]. *)

From Stdlib Require Import ZArith QArith Floats.SpecFloat.
From stdpp Require Import gmap strings list pretty.

Local Open Scope Z_scope.

(** ** Outcomes of a call *)

Inductive failure : Type :=
| AsrtfFailed (msg : string)     (* ASRTF(cond, msg), cond false *)
| AssertFailed (msg : string)    (* assert(cond && msg), cond false *)
| OutOfRange.                    (* operator[] / operator() outside the container *)

Inductive result (A : Type) : Type :=
| Ok (a : A)
| Err (e : failure).
Arguments Ok {A} a.
Arguments Err {A} e.

#[global] Instance result_ret : MRet result := @Ok.
#[global] Instance result_bind : MBind result :=
  fun A B f m => match m with Ok a => f a | Err e => Err e end.

Definition ASRTF (cond : bool) (msg : string) : result () :=
  if cond then Ok () else Err (AsrtfFailed msg).

Definition assert (cond : bool) (msg : string) : result () :=
  if cond then Ok () else Err (AssertFailed msg).

(** The conversion of an [Eigen::Index] to [int]: the value modulo 2^32. *)
Definition to_int (z : Z) : Z := (z + 2 ^ 31) mod 2 ^ 32 - 2 ^ 31.

(** [v[i]] for an [int] index. *)
Definition at_ {A} (v : list A) (i : Z) : result A :=
  if i <? 0 then Err OutOfRange
  else match v !! Z.to_nat i with
       | Some x => Ok x
       | None => Err OutOfRange
       end.

(** [for (x : l) body] where the body can only fail or go on. *)
Fixpoint for_each {A} (l : list A) (body : A -> result ()) : result () :=
  match l with
  | [] => Ok ()
  | x :: l' => body x ;; for_each l' body
  end.

(** [for (x : l) { ys.push_back(body x) }], stopping at the first failure. *)
Fixpoint collect {A B} (l : list A) (body : A -> result B) : result (list B) :=
  match l with
  | [] => Ok []
  | x :: l' => y ← body x; ys ← collect l' body; Ok (y :: ys)
  end.

(** [for (x : l) body] where the body updates the state [s] or fails. *)
Fixpoint loop {A S} (l : list A) (body : S -> A -> result S) (s : S) : result S :=
  match l with
  | [] => Ok s
  | x :: l' => s' ← body s x; loop l' body s'
  end.

(** [v[i] = x] for an [int] index. *)
Definition set_at {A} (v : list A) (i : Z) (x : A) : result (list A) :=
  if (i <? 0) || (Z.of_nat (length v) <=? i) then Err OutOfRange
  else Ok (<[Z.to_nat i := x]> v).

(** ** double *)

Abbreviation double := spec_float.

Module D.
Definition prec : Z := 53.
Definition emax : Z := 1024.
Definition of_int (z : Z) : double := binary_normalize prec emax z 0 false.
Definition neg : double -> double := SFopp.
Definition abs : double -> double := SFabs.
Definition mul : double -> double -> double := SFmul prec emax.
Definition div : double -> double -> double := SFdiv prec emax.
Definition sub : double -> double -> double := SFsub prec emax.
Definition eqb : double -> double -> bool := SFeqb.
Definition ltb : double -> double -> bool := SFltb.
Definition leb : double -> double -> bool := SFleb.
(** [std::ldexp(1.0, e)] for a normal exponent: the power of two 2^e. *)
Definition pow2 (e : Z) : double := S754_finite false (2 ^ 52) (e - 52).
Definition is_finite (x : double) : bool :=
  match x with
  | S754_zero _ | S754_finite _ _ _ => true
  | _ => false
  end.
(** The rational number a finite double stands for. *)
Definition to_Q (x : double) : Q :=
  match x with
  | S754_finite s m e =>
      let mag := (if 0 <=? e then inject_Z (Z.pos m * 2 ^ e)
                  else Z.pos m # Z.to_pos (2 ^ (- e)))%Z in
      if s then Qopp mag else mag
  | _ => 0%Q
  end.
End D.

Declare Scope double_scope.
Delimit Scope double_scope with D.
Bind Scope double_scope with spec_float.
Notation "- x" := (D.neg x) : double_scope.
Infix "*" := D.mul : double_scope.
Infix "/" := D.div : double_scope.
Infix "-" := D.sub : double_scope.
Infix "==" := D.eqb (at level 70, no associativity) : double_scope.
Infix "<?" := D.ltb : double_scope.
Infix "<=?" := D.leb : double_scope.
Notation "x >? y" := (D.ltb y x) : double_scope.

(** ** Eigen::MatrixXd, row major *)

Record MatrixXd : Type := Matrix {
  cols : Z;
  coefficients : list (list double)
}.

Definition rows (A : MatrixXd) : Z := Z.of_nat (length (coefficients A)).

Definition wf_matrix (A : MatrixXd) : Prop :=
  0 <= cols A /\ Forall (fun r => Z.of_nat (length r) = cols A) (coefficients A).

(** [A.row(i)] and [A(i, j)]. *)
Definition row (A : MatrixXd) (i : Z) : result (list double) := at_ (coefficients A) i.
Definition coeff (A : MatrixXd) (i j : Z) : result double := r ← row A i; at_ r j.

(** ** Bitsets and incidence *)

Abbreviation bset := (list bool).

(** [bset(n)]: n bits, all clear. *)
Definition bset_zero (n : nat) : bset := replicate n false.
Definition bset_test (b : bset) (pos : nat) : bool := default false (b !! pos).
Definition bset_set (pos : nat) (b : bset) : bset := <[pos := true]> b.

(** The inner loop of [transpose_incidence]: [col] runs over [0, num_cols). *)
Definition transpose_row (row : nat) (in_row : bset) (num_cols : nat)
    (output : list bset) : list bset :=
  foldl (fun out col =>
           if negb (bset_test in_row col) then out
           else alter (bset_set row) col out)
        output (seq 0 num_cols).

(** The outer loop, from row index [row] on. *)
Fixpoint transpose_rows (num_cols : nat) (row : nat) (input : list bset)
    (output : list bset) : result (list bset) :=
  match input with
  | [] => Ok output
  | in_row :: rest =>
      assert (length in_row =? num_cols)%nat "All incidences should be of the same size.";;
      transpose_rows num_cols (S row) rest (transpose_row row in_row num_cols output)
  end.

Definition transpose_incidence (input : list bset) : result (list bset) :=
  ASRTF (negb (bool_decide (input = []))) "The function doesn't support empty input.";;
  let num_rows := length input in
  input0 ← at_ input 0;
  let num_cols := length input0 in
  transpose_rows num_cols 0 input (replicate num_cols (bset_zero num_rows)).

(** ** relu_1 *)

Definition relu_1 (lb ub : double) : result MatrixXd :=
  ASRTF (lb <=? ub)%D "Unsoundness - lower bound should be <= then upper bound.";;
  ASRTF ((lb <? D.of_int 0)%D && (D.of_int 0 <? ub)%D)
        "Expecting non-trivial input where lb < 0 < ub.";;
  let lmd := (- lb * ub / (ub - lb))%D in
  let mu := (ub / (ub - lb))%D in
  assert (lmd >? D.of_int 0)%D "Expected lmd > 0.";;
  assert (mu >? D.of_int 0)%D "Expected mu > 0.";;
  Ok (Matrix 3 [ [D.of_int 0; D.of_int 0; D.of_int 1];
                 [D.of_int 0; D.of_int (-1); D.of_int 1];
                 [lmd; mu; D.of_int (-1)] ]).


(** ** Quadrants, vertices, dual descriptions *)

Inductive Polarity : Type := MINUS | PLUS.

#[global] Instance Polarity_eq_dec : EqDecision Polarity.
Proof. solve_decision. Defined.

#[global] Instance Polarity_countable : Countable Polarity :=
  inj_countable' (fun p => match p with MINUS => false | PLUS => true end)
                 (fun b : bool => if b then PLUS else MINUS)
                 (fun p => match p with MINUS => eq_refl | PLUS => eq_refl end).

Abbreviation Quadrant := (list Polarity).

(** A vertex in exact arithmetic: an [mpq_t] array. *)
Abbreviation mpq_vector := (list Q).

Record OctahedronV : Type := {
  oct_V : list mpq_vector;
  oct_incidence : list bset;
  oct_orthant_adjacencies : list (list Z)
}.

Record QuadrantInfo : Type := {
  V : list mpq_vector;
  V_to_H_incidence : list bset
}.

Record PDD : Type := {
  pdd_dim : Z;
  pdd_V : MatrixXd;
  pdd_H : MatrixXd;
  pdd_incidence : list bset
}.

(** cddlib's [dd_MatrixPtr], as far as [krelu_with_cdd] touches it. *)
Inductive dd_RepresentationType : Type := dd_Unspecified | dd_Inequality | dd_Generator.
Inductive dd_ErrorType : Type := dd_NoError | dd_Error (code : Z).

#[global] Instance dd_ErrorType_eq_dec : EqDecision dd_ErrorType.
Proof. solve_decision. Defined.

Record dd_Matrix : Type := {
  rowsize : Z;
  colsize : Z;
  representation : dd_RepresentationType;
  matrix : list mpq_vector
}.

(** [dd_CreateMatrix(m, d)]: m rows of d rationals, all initialised to 0. *)
Definition dd_CreateMatrix (m d : Z) : dd_Matrix :=
  {| rowsize := m; colsize := d; representation := dd_Unspecified;
     matrix := replicate (Z.to_nat m) (replicate (Z.to_nat d) 0%Q) |}.

(** Modelled from the spec: POW3 (a constant table of utils.h, not in the
    translation unit).  The spec fixes the row count at "exactly 3^K - 1
    rows", so POW3[K] is 3^K. *)
Definition POW3 (K : Z) : Z := 3 ^ K.

(** ** What the translation unit calls but does not define *)

Class Collaborators : Type := {
  (* octahedron.h *)
  K2OCTAHEDRON_COEFS : list (list (list Z));
  compute_octahedron_V : MatrixXd -> result OctahedronV;
  compute_quadrants_with_cdd : MatrixXd -> result (gmap Quadrant QuadrantInfo);
  (* split_in_quadrants.h *)
  split_in_quadrants :
    list mpq_vector -> list bset -> list (list Z) -> Z ->
    result (gmap Quadrant QuadrantInfo);
  (* mpq.h *)
  mpq_convert2eigen : Z -> list mpq_vector -> result MatrixXd;
  (* utils.h *)
  compute_maximal_indexes : list bset -> result (list Z);
  cdd2eigen : dd_Matrix -> result MatrixXd;
  (* decomposition.h *)
  decomposition : gmap Quadrant PDD -> Z -> result MatrixXd;
  (* cddlib *)
  dd_Polyhedra : Type;
  dd_DDMatrix2Poly : dd_Matrix -> dd_ErrorType * dd_Polyhedra;
  dd_CopyInequalities : dd_Polyhedra -> dd_Matrix
}.

Section Fkrelu.
Context {ext : Collaborators}.

(** ** verify_fkrelu_input *)

Definition verify_fkrelu_input (A : MatrixXd) : result () :=
  let K := to_int (cols A - 1) in
  ASRTF ((1 <=? K) && (K <=? 4)) "K should be within allowed range.";;
  ASRTF (rows A =? POW3 K - 1) "Unexpected number of rows in the input.";;
  coefs ← at_ K2OCTAHEDRON_COEFS K;
  for_each (seqZ 0 (rows A)) (fun i =>
    row ← row A i;
    coef_row ← at_ coefs i;
    for_each (seqZ 0 K) (fun j =>
      x ← at_ row (j + 1);
      c ← at_ coef_row j;
      ASRTF (x == D.of_int c)%D "Input is not of correct format.")).

(** ** fkrelu *)

(** [MatrixXd empty(0, K + 1)]. *)
Definition empty_matrix (K : Z) : MatrixXd := Matrix (K + 1) [].

(** [MatrixXd::Zero(1, K + 1)], as a row. *)
Definition zero_row (K : Z) : list double := replicate (Z.to_nat (K + 1)) (D.of_int 0).

(** One turn of the loop over [maximal_H]: the row of [H] and the bitset of
    [incidence_H_to_V] at position [i]. *)
Definition halfspace_of_maximal (A : MatrixXd) (K : Z) (quadrant : Quadrant)
    (incidence_H_to_V_with_redundancy : list bset) (maximal : Z)
    : result (list double * bset) :=
  inc ← at_ incidence_H_to_V_with_redundancy maximal;
  if maximal <? rows A then
    h ← row A maximal;
    (* H.row(i) = A.row(maximal): a row of H cannot be resized *)
    assert (Z.of_nat (length h) =? K + 1)
           "DenseBase::resize() does not actually allow to resize.";;
    Ok (h, inc)
  else
    let xi := maximal - rows A in
    assert ((0 <=? xi) && (xi <? K)) "Sanity checking the range of xi.";;
    sign ← at_ quadrant xi;
    if bool_decide (sign = MINUS) then
      Ok (<[Z.to_nat (xi + 1) := D.of_int (-1)]> (zero_row K), inc)
    else
      Ok (<[Z.to_nat (xi + 1) := D.of_int 1]> (zero_row K), inc).

(** The body of the loop over [quadrant2info]: the PDD stored under
    [quadrant]. *)
Definition quadrant_pdd (A : MatrixXd) (K : Z) (quadrant : Quadrant)
    (info : QuadrantInfo) : result PDD :=
  let V_mpq := V info in
  if bool_decide (V_mpq = []) then
    let empty := empty_matrix K in
    Ok {| pdd_dim := K + 1; pdd_V := empty; pdd_H := empty; pdd_incidence := [] |}
  else
    V ← mpq_convert2eigen (K + 1) V_mpq;
    let incidence_V_to_H := V_to_H_incidence info in
    assert (Z.of_nat (length incidence_V_to_H) =? rows V)
           "Incidence_V_to_H size should equal V.rows()";;
    incidence_H_to_V_with_redundancy ← transpose_incidence incidence_V_to_H;
    assert (Z.of_nat (length incidence_H_to_V_with_redundancy) =? rows A + K)
           "Incidence_H_to_V_with_redundancy size should equal A.rows() + K";;
    maximal_H ← compute_maximal_indexes incidence_H_to_V_with_redundancy;
    built ← collect maximal_H
              (halfspace_of_maximal A K quadrant incidence_H_to_V_with_redundancy);
    Ok {| pdd_dim := K + 1; pdd_V := V;
          pdd_H := Matrix (K + 1) (built.*1);
          pdd_incidence := built.*2 |}.

(** The loop over [quadrant2info], filling [quadrant2pdd]. *)
Fixpoint fill_quadrant2pdd (A : MatrixXd) (K : Z)
    (entries : list (Quadrant * QuadrantInfo))
    (quadrant2pdd : gmap Quadrant PDD) : result (gmap Quadrant PDD) :=
  match entries with
  | [] => Ok quadrant2pdd
  | (quadrant, info) :: rest =>
      pdd ← quadrant_pdd A K quadrant info;
      fill_quadrant2pdd A K rest (<[quadrant := pdd]> quadrant2pdd)
  end.

(** [fkrelu] from [compute_octahedron_V] to the end of the loop. *)
Definition fkrelu_quadrant2pdd (A : MatrixXd) (K : Z) : result (gmap Quadrant PDD) :=
  oct ← compute_octahedron_V A;
  quadrant2info ← split_in_quadrants (oct_V oct) (oct_incidence oct)
                                     (oct_orthant_adjacencies oct) K;
  fill_quadrant2pdd A K (map_to_list quadrant2info) ∅.

Definition fkrelu (A : MatrixXd) : result MatrixXd :=
  let K := to_int (cols A - 1) in
  ASRTF ((1 <=? K) && (K <=? 4)) "K should be within allowed range.";;
  verify_fkrelu_input A;;
  if K =? 1 then
    lb ← coeff A 0 0;
    ub ← coeff A 1 0;
    relu_1 (- lb)%D ub
  else
    quadrant2pdd ← fkrelu_quadrant2pdd A K;
    decomposition quadrant2pdd K.

(** ** krelu_with_cdd *)

(** The two inner loops: fill the row [v_projection] of [vertices] from the
    vertex [v] of [quadrant]. *)
Definition project_vertex (K : Z) (quadrant : Quadrant) (v : mpq_vector)
    (v_projection : mpq_vector) : result mpq_vector :=
  v_projection ← loop (seqZ 0 (K + 1))
    (fun v_projection i => x ← at_ v i; set_at v_projection i x) v_projection;
  loop (seqZ 0 K)
    (fun v_projection i =>
       sign ← at_ quadrant i;
       if bool_decide (sign = PLUS) then
         x ← at_ v (1 + i);
         set_at v_projection (1 + i + K) x
       else Ok v_projection)
    v_projection.

(** The loop over the vertices of one quadrant; the state is [counter] and
    the rows of [vertices]. *)
Definition project_quadrant (K : Z) (state : Z * list mpq_vector)
    (entry : Quadrant * QuadrantInfo) : result (Z * list mpq_vector) :=
  let '(quadrant, info) := entry in
  loop (V info)
    (fun '(counter, rows) v =>
       v_projection ← at_ rows counter;
       v_projection ← project_vertex K quadrant v v_projection;
       rows ← set_at rows counter v_projection;
       Ok (counter + 1, rows))
    state.

(** [krelu_with_cdd] from the count of the vertices to the consistency
    check on [counter]: the generator matrix handed to cddlib. *)
Definition cdd_generators (K : Z) (quadrant2info : gmap Quadrant QuadrantInfo)
    : result dd_Matrix :=
  let entries := map_to_list quadrant2info in
  let num_vertices :=
    foldl (fun n entry => n + Z.of_nat (length (V entry.2))) 0 entries in
  let vertices := dd_CreateMatrix num_vertices (2 * K + 1) in
  '(counter, rows) ← loop entries (project_quadrant K) (0, matrix vertices);
  assert (counter =? num_vertices)
         "Consistency checking that counter equals the number of vertices.";;
  Ok {| rowsize := rowsize vertices; colsize := colsize vertices;
        representation := dd_Generator; matrix := rows |}.

(** [row.array().abs().maxCoeff()]: Eigen refuses an empty row, and keeps
    the running maximum unless the next coefficient is greater. *)
Definition abs_maxCoeff (r : list double) : result double :=
  match D.abs <$> r with
  | [] => Err (AssertFailed "you are using an empty matrix")
  | x :: r' => Ok (foldl (fun m y => if (m <? y)%D then y else m) x r')
  end.

Definition to_string (err : dd_ErrorType) : string :=
  match err with
  | dd_NoError => "dd_NoError"
  | dd_Error code => pretty code
  end.

Definition krelu_with_cdd (A : MatrixXd) : result MatrixXd :=
  let K := to_int (cols A - 1) in
  ASRTF ((1 <=? K) && (K <=? 4)) "K should be within allowed range.";;
  quadrant2info ← compute_quadrants_with_cdd A;
  vertices ← cdd_generators K quadrant2info;
  let '(err, poly) := dd_DDMatrix2Poly vertices in
  ASRTF (bool_decide (err = dd_NoError))
        ("Converting matrix to polytope failed with error " +:+ to_string err);;
  let inequalities := dd_CopyInequalities poly in
  H ← cdd2eigen inequalities;
  normalized ← collect (coefficients H)
    (fun h => abs_coef ← abs_maxCoeff h; Ok ((fun x => x / abs_coef)%D <$> h));
  Ok (Matrix (cols H) normalized).

End Fkrelu.

(** ** Auxiliary definitions used in the statements and proofs *)

(** The PDD recorded for a quadrant without vertices. *)
Definition empty_pdd (K : Z) : PDD :=
  {| pdd_dim := K + 1; pdd_V := Matrix (K + 1) []; pdd_H := Matrix (K + 1) [];
     pdd_incidence := [] |}.

(** ** The octahedron table and a sample run *)

(** All vectors over 1, 0, -1 of length K, with 1 before 0 before -1. *)
Fixpoint sign_combinations (K : nat) : list (list Z) :=
  match K with
  | O => [[]]
  | S k => c ← [1; 0; -1]; (fun r => c :: r) <$> sign_combinations k
  end.

(** Modelled from the spec: K2OCTAHEDRON_COEFS[K] (octahedron.h, not in the
    translation unit).  "Every nonzero sign combination over K dims", one
    row per combination; the order of [sign_combinations] puts, for K = 1,
    the lower bound in row 0 and the upper bound in row 1, where [fkrelu]
    reads them. *)
Definition octahedron_coefs (K : nat) : list (list Z) :=
  filter (fun r => ¬ Forall (fun c => c = 0) r) (sign_combinations K).

(** Modelled from the spec: K2OCTAHEDRON_COEFS, "a precomputed table indexed
    by K" for K in [1, 4]; index 0 is unused. *)
Definition octahedron_table : list (list (list Z)) :=
  [] :: (octahedron_coefs <$> [1; 2; 3; 4]%nat).

(** The sample run: the box 1 <= x1 <= 2, -1 <= x2 <= 1 in octahedral form,
    with the answers of the collaborators tabulated for it. *)
Module Sample.

Definition A1 : MatrixXd :=
  Matrix 2 [ [D.of_int 1; D.of_int 1]; [D.of_int 2; D.of_int (-1)] ].

(* rows (c, a1, a2) stand for c + a1 x1 + a2 x2 >= 0 *)
Definition A2 : MatrixXd :=
  Matrix 3 (map (map D.of_int)
    [ [0; 1; 1]; [-1; 1; 0]; [0; 1; -1]; [1; 0; 1];
      [1; 0; -1]; [3; -1; 1]; [2; -1; 0]; [3; -1; -1] ]).

(** [A2] without its last row, which [fkrelu] refuses. *)
Definition A2_short : MatrixXd := Matrix 3 (take 7 (coefficients A2)).

Definition vertex (x1 x2 : Z) : mpq_vector := [1%Q; inject_Z x1; inject_Z x2].

Definition tight (h : list double) (v : mpq_vector) : bool :=
  Qeq_bool (foldr Qplus 0%Q (zip_with Qmult (D.to_Q <$> h) v)) 0.

(** Bit i < 8: the vertex lies on row i of [A2]; bit 8 + d: x_d = 0. *)
Definition incidence_of (v : mpq_vector) : bset :=
  ((fun h => tight h v) <$> coefficients A2) ++
  ((fun x => Qeq_bool x 0) <$> drop 1 v).

Definition info_of (vs : list mpq_vector) : QuadrantInfo :=
  {| V := vs; V_to_H_incidence := incidence_of <$> vs |}.

Definition quadrants : gmap Quadrant QuadrantInfo :=
  list_to_map
    [ ([MINUS; MINUS], info_of []);
      ([MINUS; PLUS], info_of []);
      ([PLUS; MINUS], info_of [vertex 1 (-1); vertex 2 (-1); vertex 1 0; vertex 2 0]);
      ([PLUS; PLUS], info_of [vertex 1 0; vertex 2 0; vertex 1 1; vertex 2 1]) ].

Definition octahedron : OctahedronV :=
  let vs := [vertex 1 (-1); vertex 2 (-1); vertex 1 1; vertex 2 1] in
  {| oct_V := vs;
     oct_incidence := (fun v => take 8 (incidence_of v)) <$> vs;
     oct_orthant_adjacencies := [] |}.

Definition convert (x : Q) : double :=
  (D.of_int (Qnum x) / D.of_int (Z.pos (Qden x)))%D.

Definition subset (a b : bset) : bool :=
  forallb (fun p : bool * bool => implb p.1 p.2) (zip a b).

(** Index i is kept unless another bitset contains bitset i (the first of
    equal bitsets is kept). *)
Definition maximal_indexes (incidence : list bset) : list Z :=
  let indexed := imap (fun i b => (i, b)) incidence in
  omap (fun '(i, b) =>
          if existsb (fun '(j, c) =>
                        subset b c &&
                        (negb (subset c b) || (j <? i)%nat)) indexed
          then None else Some (Z.of_nat i)) indexed.

(* the facets of the hull of the eight lifted vertices, over
   (1, x1, x2, y1, y2) *)
Definition facets : dd_Matrix :=
  {| rowsize := 7; colsize := 5; representation := dd_Inequality;
     matrix := map (map inject_Z)
       [ [-1; 1; 0; 0; 0]; [2; -1; 0; 0; 0]; [0; -1; 0; 1; 0]; [0; 1; 0; -1; 0];
         [0; 0; 0; 0; 1]; [0; 0; -1; 0; 1]; [1; 0; 1; 0; -2] ] |}.

(** The collaborators on this run.  The octahedron, the quadrants and the
    facets are the tabulated answers for the box; the conversions divide
    numerator by denominator in double; the maximal indexes follow the
    incidence; [decomposition] lines up the halfspace rows of the quadrants
    and the cddlib conversion hands the generators through. *)
#[export] Instance collaborators : Collaborators := {|
  K2OCTAHEDRON_COEFS := octahedron_table;
  compute_octahedron_V := fun _ => Ok octahedron;
  compute_quadrants_with_cdd := fun _ => Ok quadrants;
  split_in_quadrants := fun _ _ _ _ => Ok quadrants;
  mpq_convert2eigen := fun dim vs => Ok (Matrix dim (map (map convert) vs));
  compute_maximal_indexes := fun incidence => Ok (maximal_indexes incidence);
  cdd2eigen := fun m => Ok (Matrix (colsize m) (map (map convert) (matrix m)));
  decomposition := fun quadrant2pdd K =>
    Ok (Matrix (K + 1)
          (concat ((fun e => coefficients (pdd_H e.2)) <$> map_to_list quadrant2pdd)));
  dd_Polyhedra := dd_Matrix;
  dd_DDMatrix2Poly := fun generators => (dd_NoError, generators);
  dd_CopyInequalities := fun _ => facets
|}.

(** The map that [fkrelu] builds for [A2], and two of its parts. *)
Definition quadrant2pdd : gmap Quadrant PDD :=
  match fkrelu_quadrant2pdd A2 2 with
  | Ok m => m
  | Err _ => ∅
  end.

Definition pdd_plus_plus : PDD := default (empty_pdd 2) (quadrant2pdd !! [PLUS; PLUS]).

End Sample.

(** What the transposition is expected to produce: bit [row] of output
    bitset [col] is bit [col] of input bitset [row]. *)
Definition transposed (num_cols : nat) (input : list bset) : list bset :=
  (fun col => (fun in_row => bset_test in_row col) <$> input) <$> seq 0 num_cols.

(** The effect of the outer loop on one output bitset: for the k-th bit of
    [bits] that is set, bit [row + k] gets set. *)
Fixpoint set_bits (row : nat) (bits : list bool) (b : bset) : bset :=
  match bits with
  | [] => b
  | x :: bits' => set_bits (S row) bits' (if x then bset_set row b else b)
  end.

(** The exact dot product of a halfspace row and a vertex row. *)
Fixpoint dotQ (h v : list double) : Q :=
  match h, v with
  | x :: h', y :: v' => (D.to_Q x * D.to_Q y + dotQ h' v')%Q
  | _, _ => 0%Q
  end.

(** The exact value of the halfspace row [h] at the exact point [v]:
    h_0 v_0 + h_1 v_1 + ... *)
Fixpoint dot_exact (h : list double) (v : mpq_vector) : Q :=
  match h, v with
  | x :: h', y :: v' => (D.to_Q x * y + dot_exact h' v')%Q
  | _, _ => 0%Q
  end.

(** Coordinate 1 + i of an exact vertex has the sign the quadrant gives to
    dimension i. *)
Definition mpq_in_quadrant (quadrant : Quadrant) (v : mpq_vector) : Prop :=
  forall (i : nat) sign x, quadrant !! i = Some sign -> v !! S i = Some x ->
    match sign with
    | PLUS => (0 <= x)%Q
    | MINUS => (x <= 0)%Q
    end.

(** Modelled from the spec: the exact vertices that compute_octahedron_V and
    split_in_quadrants (octahedron.h and split_in_quadrants.h, not in the
    translation unit) hand to the per-quadrant solver.  A vertex is "a
    vector of K+1 exact rational coordinates", one of "the extreme points"
    of the region that A describes, and a quadrant retains "only vertices
    compatible with that sign pattern": each vertex of the quadrant has
    K + 1 coordinates, has the signs of the quadrant, and satisfies every
    row of A that has an exact value (finite coefficients). *)
Definition exact_vertices_ok (A : MatrixXd) (K : Z) (quadrant : Quadrant)
    (info : QuadrantInfo) : Prop :=
  forall v, v ∈ V info ->
    Z.of_nat (length v) = K + 1 /\
    mpq_in_quadrant quadrant v /\
    forall h, h ∈ coefficients A ->
      Forall (fun x => D.is_finite x = true) h -> (0 <= dot_exact h v)%Q.

(** The conversion of the vertices to double has lost nothing: row by row
    and coordinate by coordinate, the double is finite and stands for the
    rational it was converted from. *)
Definition converted_exactly (vs : list mpq_vector) (Vd : MatrixXd) : Prop :=
  Forall2 (Forall2 (fun (x : Q) (d : double) =>
                      D.is_finite d = true /\ (D.to_Q d == x)%Q))
          vs (coefficients Vd).

Definition matrix_finite (A : MatrixXd) : Prop :=
  Forall (Forall (fun x => D.is_finite x = true)) (coefficients A).

(** The coefficient that the facet of a dimension gets from its sign. *)
Definition facet_coefficient (sign : Polarity) : double :=
  match sign with MINUS => D.of_int (-1) | PLUS => D.of_int 1 end.

(** The row of the generator matrix that stands for vertex [v] of
    [quadrant]: K + 1 columns of v, then one column per dimension. *)
Definition embedded (K : nat) (quadrant : Quadrant) (v : mpq_vector) : mpq_vector :=
  take (S K) v ++
  zip_with (fun (sign : Polarity) x => if bool_decide (sign = PLUS) then x else 0%Q)
           (take K quadrant) (take K (drop 1 v)).

(** The same, column by column: the first K + 1 columns are v's
    coordinates; column 1 + i + K is coordinate 1 + i of v where the sign of
    dimension i is PLUS and 0 where it is MINUS. *)
Definition embeds (K : Z) (quadrant : Quadrant) (v r : mpq_vector) : Prop :=
  Z.of_nat (length r) = 2 * K + 1 /\
  (forall j : nat, Z.of_nat j < K + 1 -> r !! j = v !! j) /\
  (forall (i : nat) sign, Z.of_nat i < K -> quadrant !! i = Some sign ->
     r !! (1 + i + Z.to_nat K)%nat =
     match sign with PLUS => v !! (1 + i)%nat | MINUS => Some 0%Q end).

(** Entry j of row i of the table for K. *)
Definition coef_entry {ext : Collaborators} (K i j : Z) : result Z :=
  coefs ← at_ K2OCTAHEDRON_COEFS K; coef_row ← at_ coefs i; at_ coef_row j.

(** The table has, for each K in [1, 4], 3^K - 1 rows of K entries. *)
Definition coefs_wf {ext : Collaborators} : Prop :=
  forall K, 1 <= K <= 4 ->
    exists coefs, at_ K2OCTAHEDRON_COEFS K = Ok coefs /\
      Z.of_nat (length coefs) = POW3 K - 1 /\
      Forall (fun r => Z.of_nat (length r) = K) coefs.

(** The input format: K in [1, 4], 3^K - 1 rows, and the coefficients of
    x_1 .. x_K in every row equal to the table's. *)
Definition octahedral {ext : Collaborators} (A : MatrixXd) : Prop :=
  let K := to_int (cols A - 1) in
  1 <= K <= 4 /\
  rows A = 3 ^ K - 1 /\
  forall i j, 0 <= i < rows A -> 0 <= j < K ->
    exists x c, coeff A i (j + 1) = Ok x /\ coef_entry K i j = Ok c /\
                (x == D.of_int c)%D = true.

Definition malformed_input_messages : list string :=
  [ "K should be within allowed range.";
    "Unexpected number of rows in the input.";
    "Input is not of correct format." ].

(** Collaborators that all fail, around the same table: what is left of the
    translation unit when nothing behind it can be reached. *)
Definition unreachable : failure := AsrtfFailed "collaborator not reachable".

Definition no_collaborators : Collaborators := {|
  K2OCTAHEDRON_COEFS := octahedron_table;
  compute_octahedron_V := fun _ => Err unreachable;
  compute_quadrants_with_cdd := fun _ => Err unreachable;
  split_in_quadrants := fun _ _ _ _ => Err unreachable;
  mpq_convert2eigen := fun _ _ => Err unreachable;
  compute_maximal_indexes := fun _ => Err unreachable;
  cdd2eigen := fun _ => Err unreachable;
  decomposition := fun _ _ => Err unreachable;
  dd_Polyhedra := unit;
  dd_DDMatrix2Poly := fun _ => (dd_Error 0, tt);
  dd_CopyInequalities := fun _ => dd_CreateMatrix 0 0
|}.

(** The number of bits set in a bitset. *)
Definition popcount (b : bset) : nat := sum_list_with Nat.b2n b.

(** ReLU on an exact scalar. *)
Definition relu (x : Q) : Q := if Qle_bool 0 x then x else 0%Q.

(** The collaborators of [Sample], except that the inequalities that come
    back from cddlib carry one more row, all zero. *)
Definition zero_row_collaborators : Collaborators := {|
  K2OCTAHEDRON_COEFS := octahedron_table;
  compute_octahedron_V := fun _ => Ok Sample.octahedron;
  compute_quadrants_with_cdd := fun _ => Ok Sample.quadrants;
  split_in_quadrants := fun _ _ _ _ => Ok Sample.quadrants;
  mpq_convert2eigen := fun dim vs => Ok (Matrix dim (map (map Sample.convert) vs));
  compute_maximal_indexes := fun incidence => Ok (Sample.maximal_indexes incidence);
  cdd2eigen := fun m => Ok (Matrix (colsize m) (map (map Sample.convert) (matrix m)));
  decomposition := fun quadrant2pdd K =>
    Ok (Matrix (K + 1)
          (concat ((fun e => coefficients (pdd_H e.2)) <$> map_to_list quadrant2pdd)));
  dd_Polyhedra := dd_Matrix;
  dd_DDMatrix2Poly := fun generators => (dd_NoError, generators);
  dd_CopyInequalities := fun _ =>
    {| rowsize := 8; colsize := 5; representation := dd_Inequality;
       matrix := matrix Sample.facets ++ [replicate 5 0%Q] |}
|}.

#[global] Instance double_eq_dec : EqDecision double.
Proof. solve_decision. Defined.

(** Modelled from the spec: decomposition (decomposition.h; the translation
    unit has only its call).  It is to "assemble and deduplicate the
    halfspace rows contributed by all quadrants into the single output
    matrix", "a halfspace matrix H with K+1 columns". *)
Definition assemble (quadrant2pdd : gmap Quadrant PDD) (K : Z) : MatrixXd :=
  Matrix (K + 1)
    (remove_dups
       (concat ((fun e => coefficients (pdd_H e.2)) <$> map_to_list quadrant2pdd))).


(** ** A run in which the conversion to double rounds

    The triangle x2 >= 2^-60, x1 - x2 >= 1, x1 <= 2 in the octahedral
    format for K = 2; the other five rows are slack.  Its vertices are
    (1 + 2^-60, 2^-60), (2, 2^-60) and (2, 1), all in the quadrant
    (PLUS, PLUS).  The first coordinate of the first vertex lies strictly
    between the doubles 1 and 1 + 2^-52. *)
Module Rounded.

Definition tiny : double := D.pow2 (-60).

(* rows (c, a1, a2) stand for c + a1 x1 + a2 x2 >= 0 *)
Definition A2 : MatrixXd :=
  Matrix 3
    [ [D.of_int 0; D.of_int 1; D.of_int 1];
      [D.of_int 0; D.of_int 1; D.of_int 0];
      [D.of_int (-1); D.of_int 1; D.of_int (-1)];
      [(- tiny)%D; D.of_int 0; D.of_int 1];
      [D.of_int 2; D.of_int 0; D.of_int (-1)];
      [D.of_int 3; D.of_int (-1); D.of_int 1];
      [D.of_int 2; D.of_int (-1); D.of_int 0];
      [D.of_int 4; D.of_int (-1); D.of_int (-1)] ].

Definition vertices : list mpq_vector :=
  [ [1%Q; (2 ^ 60 + 1) # (2 ^ 60); 1 # (2 ^ 60)];
    [1%Q; inject_Z 2; 1 # (2 ^ 60)];
    [1%Q; inject_Z 2; inject_Z 1] ].

(** Bit i < 8: the vertex lies on row i of [A2]; bit 8 + d: x_d = 0. *)
Definition incidence_of (v : mpq_vector) : bset :=
  ((fun h => Qeq_bool (dot_exact h v) 0) <$> coefficients A2) ++
  ((fun x => Qeq_bool x 0) <$> drop 1 v).

Definition quadrants : gmap Quadrant QuadrantInfo :=
  list_to_map
    [ ([MINUS; MINUS], {| V := []; V_to_H_incidence := [] |});
      ([MINUS; PLUS], {| V := []; V_to_H_incidence := [] |});
      ([PLUS; MINUS], {| V := []; V_to_H_incidence := [] |});
      ([PLUS; PLUS], {| V := vertices; V_to_H_incidence := incidence_of <$> vertices |}) ].

Definition octahedron : OctahedronV :=
  {| oct_V := vertices;
     oct_incidence := (fun v => take 8 (incidence_of v)) <$> vertices;
     oct_orthant_adjacencies := [] |}.

(** The vertex enumeration and the splitter give the exact answers for the
    triangle; the conversion to double is that of [Sample], which gives the
    double 1 for 1 + 2^-60, as rounding to nearest and rounding towards zero
    both do. *)
Definition collaborators : Collaborators := {|
  K2OCTAHEDRON_COEFS := octahedron_table;
  compute_octahedron_V := fun _ => Ok octahedron;
  compute_quadrants_with_cdd := fun _ => Ok quadrants;
  split_in_quadrants := fun _ _ _ _ => Ok quadrants;
  mpq_convert2eigen := fun dim vs => Ok (Matrix dim (map (map Sample.convert) vs));
  compute_maximal_indexes := fun incidence => Ok (Sample.maximal_indexes incidence);
  cdd2eigen := fun m => Ok (Matrix (colsize m) (map (map Sample.convert) (matrix m)));
  decomposition := fun quadrant2pdd K => Ok (assemble quadrant2pdd K);
  dd_Polyhedra := dd_Matrix;
  dd_DDMatrix2Poly := fun generators => (dd_NoError, generators);
  dd_CopyInequalities := fun _ => Sample.facets
|}.

(** The map that [fkrelu] builds for [A2], and the PDD of the one quadrant
    that has vertices. *)
Definition quadrant2pdd : gmap Quadrant PDD :=
  match fkrelu_quadrant2pdd (ext := collaborators) A2 2 with
  | Ok m => m
  | Err _ => ∅
  end.

Definition pdd_plus_plus : PDD := default (empty_pdd 2) (quadrant2pdd !! [PLUS; PLUS]).

End Rounded.

(** * Properties *)

(** ** The result monad and the loops *)

Lemma bind_Ok {A B} (m : result A) (f : A -> result B) (b : B) :
  m ≫= f = Ok b <-> exists a, m = Ok a /\ f a = Ok b.
Proof.
  destruct m as [a|e]; simpl; split.
  - intros Hf. exists a. by split.
  - by intros (a' & [= <-] & Hf).
  - done.
  - by intros (a' & [=] & _).
Qed.

Lemma bind_Err {A B} (m : result A) (f : A -> result B) (e : failure) :
  m ≫= f = Err e <-> m = Err e \/ exists a, m = Ok a /\ f a = Err e.
Proof.
  destruct m as [a|e']; simpl; split.
  - intros Hf. right. exists a. by split.
  - intros [[=]|(a' & [= <-] & Hf)]. done.
  - intros [= ->]. by left.
  - intros [[= ->]|(a' & [=] & _)]. done.
Qed.

Lemma Ok_bind {A B} (a : A) (f : A -> result B) : Ok a ≫= f = f a.
Proof. reflexivity. Qed.

Lemma ASRTF_Ok cond msg : ASRTF cond msg = Ok () <-> cond = true.
Proof. unfold ASRTF. by destruct cond. Qed.

Lemma assert_Ok cond msg : assert cond msg = Ok () <-> cond = true.
Proof. unfold assert. by destruct cond. Qed.

Lemma at_Ok {A} (v : list A) (i : Z) (x : A) :
  at_ v i = Ok x <-> 0 <= i /\ v !! Z.to_nat i = Some x.
Proof.
  unfold at_. destruct (Z.ltb_spec i 0).
  - split; [done | lia].
  - destruct (v !! Z.to_nat i) eqn:E; split.
    + intros [= <-]. split; [lia | done].
    + by intros [_ [= <-]].
    + done.
    + by intros [_ [=]].
Qed.

Lemma at_in_range {A} (v : list A) (i : Z) :
  0 <= i < Z.of_nat (length v) -> exists x, at_ v i = Ok x.
Proof.
  intros Hi. destruct (lookup_lt_is_Some_2 v (Z.to_nat i)) as [x Hx]; [lia|].
  exists x. apply at_Ok. split; [lia | done].
Qed.

Lemma for_each_Ok {A} (l : list A) (body : A -> result ()) :
  for_each l body = Ok () <-> Forall (fun x => body x = Ok ()) l.
Proof.
  induction l as [|x l IH]; simpl.
  - by split.
  - rewrite Forall_cons, bind_Ok, <- IH. split.
    + by intros ([] & ? & ?).
    + intros [? ?]. by exists ().
Qed.

Lemma for_each_Err {A} (l : list A) (body : A -> result ()) (e : failure) :
  for_each l body = Err e -> exists x, x ∈ l /\ body x = Err e.
Proof.
  induction l as [|x l IH]; simpl; [done|].
  rewrite bind_Err. intros [Hx | ([] & _ & Hl)].
  - exists x. split; [left | done].
  - destruct (IH Hl) as (y & ? & ?). exists y. split; [by right | done].
Qed.

Lemma collect_Ok {A B} (l : list A) (body : A -> result B) (ys : list B) :
  collect l body = Ok ys <-> Forall2 (fun x y => body x = Ok y) l ys.
Proof.
  revert ys. induction l as [|x l IH]; intros ys; simpl.
  - split; [intros [= <-]; constructor | by inversion 1].
  - rewrite bind_Ok. split.
    + intros (y & Hy & Hrest). apply bind_Ok in Hrest as (ys' & Hys' & [= <-]).
      constructor; [done | by apply IH].
    + intros Hall. inversion Hall as [|x' y l' ys' Hy Hrest]; simplify_eq. exists y. split; [done|].
      apply bind_Ok. exists ys'. split; [by apply IH | done].
Qed.

Lemma elem_of_concat {A} (x : A) (ls : list (list A)) :
  x ∈ concat ls <-> exists l, x ∈ l /\ l ∈ ls.
Proof.
  induction ls as [|l ls IH]; cbn [concat].
  - split; [by intros ?%elem_of_nil | by intros (? & _ & ?%elem_of_nil)].
  - rewrite elem_of_app, IH. split.
    + intros [Hx|(l' & ? & ?)]; [exists l; split; [done | left] |].
      exists l'. split; [done | by right].
    + intros (l' & Hx & [->|Hl']%elem_of_cons); [by left|]. right. by exists l'.
Qed.

(** ** transpose_incidence *)

Lemma transpose_row_lookup (row : nat) (in_row : bset) (n : nat)
    (output : list bset) (c : nat) :
  transpose_row row in_row n output !! c =
  (fun b => if bool_decide (c < n)%nat && bset_test in_row c
            then bset_set row b else b) <$> output !! c.
Proof.
  unfold transpose_row. induction n as [|n IH].
  - simpl. by destruct (output !! c).
  - rewrite seq_S, foldl_snoc. simpl.
    destruct (bset_test in_row n) eqn:Hn; simpl.
    + rewrite list_lookup_alter. destruct (decide (n = c)) as [<-|Hc].
      * rewrite IH, Hn.
        rewrite (bool_decide_eq_false_2 (n < n)%nat) by lia.
        rewrite (bool_decide_eq_true_2 (n < S n)%nat) by lia.
        simpl. by destruct (output !! n).
      * rewrite IH. destruct (output !! c); [simpl|done].
        by rewrite (bool_decide_ext (c < n)%nat (c < S n)%nat) by lia.
    + rewrite IH. destruct (output !! c) as [b|]; [simpl|done].
      destruct (decide (c = n)) as [->|Hc].
      * rewrite Hn, !andb_false_r. done.
      * by rewrite (bool_decide_ext (c < n)%nat (c < S n)%nat) by lia.
Qed.

Lemma transpose_rows_lookup (n : nat) (input : list bset) :
  Forall (fun b => length b = n) input ->
  forall (row : nat) (output : list bset),
  exists out,
    transpose_rows n row input output = Ok out /\
    forall c, out !! c =
      set_bits row ((fun in_row => bool_decide (c < n)%nat && bset_test in_row c) <$> input)
        <$> output !! c.
Proof.
  induction 1 as [|in_row rest Hlen _ IH]; intros row output; simpl.
  - exists output. split; [done|]. intros c. by destruct (output !! c).
  - rewrite Hlen, Nat.eqb_refl. simpl.
    destruct (IH (S row) (transpose_row row in_row n output)) as (out & -> & Hout).
    exists out. split; [done|]. intros c.
    rewrite Hout, transpose_row_lookup. by destruct (output !! c).
Qed.

Lemma set_bits_fresh (bits : list bool) (pre : bset) :
  set_bits (length pre) bits (pre ++ replicate (length bits) false) = pre ++ bits.
Proof.
  revert pre. induction bits as [|x bits IH]; intros pre; simpl.
  - done.
  - replace (if x then bset_set (length pre) (pre ++ false :: replicate (length bits) false)
             else pre ++ false :: replicate (length bits) false)
      with ((pre ++ [x]) ++ replicate (length bits) false).
    + replace (S (length pre)) with (length (pre ++ [x])) by (rewrite length_app; simpl; lia).
      rewrite IH. by rewrite <- app_assoc.
    + rewrite <- app_assoc. simpl. destruct x; [|done].
      unfold bset_set.
      rewrite insert_app_r_alt by lia.
      by rewrite Nat.sub_diag.
Qed.

Lemma transpose_incidence_transposed (input : list bset) (n : nat) :
  input <> [] ->
  Forall (fun b => length b = n) input ->
  transpose_incidence input = Ok (transposed n input).
Proof.
  intros Hne Hall. destruct input as [|input0 rest]; [done|].
  assert (length input0 = n) as Hn by by inversion Hall.
  destruct (transpose_rows_lookup n (input0 :: rest) Hall 0
              (replicate n (bset_zero (length (input0 :: rest))))) as (out & Hrun & Hout).
  transitivity (transpose_rows n 0 (input0 :: rest)
                  (replicate n (bset_zero (length (input0 :: rest))))).
  { rewrite <- Hn. reflexivity. }
  rewrite Hrun. f_equal.
  apply list_eq. intros c. rewrite Hout. unfold transposed.
  rewrite list_lookup_fmap.
  destruct (decide (c < n)%nat) as [Hc|Hc].
  - rewrite lookup_replicate_2, lookup_seq_lt by done.
    cbn [fmap option_fmap option_map]. f_equal.
    rewrite (list_fmap_ext _ (fun in_row => bset_test in_row c)).
    2: { intros ? b _. by rewrite bool_decide_eq_true_2. }
    unfold bset_zero. rewrite <- (length_fmap (fun in_row => bset_test in_row c)).
    apply (set_bits_fresh _ []).
  - rewrite lookup_seq_ge by lia.
    destruct (replicate n _ !! c) eqn:E; [|done].
    apply lookup_replicate in E. lia.
Qed.

Lemma bset_tests_all (b : bset) : (fun col => bset_test b col) <$> seq 0 (length b) = b.
Proof.
  apply list_eq. intros i. rewrite list_lookup_fmap.
  destruct (decide (i < length b)%nat) as [Hi|Hi].
  - rewrite lookup_seq_lt by done. simpl. unfold bset_test.
    destruct (lookup_lt_is_Some_2 b i Hi) as [x ->]. done.
  - rewrite lookup_seq_ge, lookup_ge_None_2 by lia. done.
Qed.

Lemma transposed_transposed (input : list bset) (n : nat) :
  Forall (fun b => length b = n) input ->
  transposed (length input) (transposed n input) = input.
Proof.
  intros Hall. apply list_eq. intros r. unfold transposed at 1.
  rewrite list_lookup_fmap.
  destruct (decide (r < length input)%nat) as [Hr|Hr].
  - rewrite lookup_seq_lt by done. simpl.
    destruct (lookup_lt_is_Some_2 input r Hr) as [b Hb]. rewrite Hb. f_equal.
    unfold transposed. rewrite <- list_fmap_compose.
    assert (length b = n) as <- by (eapply Forall_lookup_1 in Hall; eauto).
    rewrite <- (bset_tests_all b) at 2. apply list_fmap_ext. intros _ col _. simpl.
    unfold bset_test at 1. by rewrite list_lookup_fmap, Hb.
  - rewrite lookup_seq_ge, lookup_ge_None_2 by lia. done.
Qed.

(** C6.  Transposing an incidence twice gives back the incidence: for a
    non-empty list of bitsets that all have the same positive size,
    [transpose_incidence] succeeds on the input and on its own result, and
    the second result is the input. *)
Theorem transpose_incidence_round_trip (input : list bset) (n : nat) :
  input <> [] ->
  (0 < n)%nat ->
  Forall (fun b => length b = n) input ->
  exists output,
    transpose_incidence input = Ok output /\
    transpose_incidence output = Ok input.
Proof.
  intros Hne Hn Hall. exists (transposed n input). split.
  - by apply transpose_incidence_transposed.
  - rewrite (transpose_incidence_transposed _ (length input)).
    + by rewrite (transposed_transposed _ n).
    + unfold transposed. destruct n; [lia|]. done.
    + unfold transposed. apply Forall_fmap, Forall_forall. intros col _. simpl.
      by rewrite length_fmap.
Qed.

Lemma transpose_incidence_round_trip_witness :
  exists output,
    transpose_incidence [[true; false; true]; [false; false; true]] = Ok output /\
    transpose_incidence output = Ok [[true; false; true]; [false; false; true]].
Proof.
  apply (transpose_incidence_round_trip _ 3).
  - done.
  - lia.
  - repeat constructor.
Defined.

(** ** Conversion to int *)

Lemma to_int_small (z : Z) : - 2 ^ 31 <= z < 2 ^ 31 -> to_int z = z.
Proof. unfold to_int. intros Hz. rewrite Z.mod_small; lia. Qed.

(** A column count whose K is positive has at least K + 1 columns. *)
Lemma to_int_cols (c : Z) : 0 <= c -> 1 <= to_int (c - 1) -> to_int (c - 1) + 1 <= c.
Proof.
  unfold to_int. intros Hc HK.
  pose proof (Z.mod_pos_bound (c - 1 + 2 ^ 31) (2 ^ 32) ltac:(lia)) as Hmod.
  pose proof (Z.div_mod (c - 1 + 2 ^ 31) (2 ^ 32) ltac:(lia)) as Hdiv.
  assert (0 <= (c - 1 + 2 ^ 31) / 2 ^ 32) by (apply Z.div_pos; lia).
  nia.
Qed.

(** ** Comparisons on double *)

Lemma sign_conditions_order (lb ub : double) :
  (lb <? D.of_int 0)%D = true -> (D.of_int 0 <? ub)%D = true ->
  (lb <=? ub)%D = true /\ (ub <? lb)%D = false.
Proof.
  destruct lb as [[]|[]| |[] ml el], ub as [[]|[]| |[] mu eu]; by cbv.
Qed.

(** ** relu_1 *)

(** [relu_1] raises exactly when its bounds are out of order or do not
    straddle zero. *)
Lemma relu_1_raises_iff (lb ub : double) :
  (exists msg, relu_1 lb ub = Err (AsrtfFailed msg)) <->
  ((ub <? lb)%D = true \/
   ~ ((lb <? D.of_int 0)%D = true /\ (D.of_int 0 <? ub)%D = true)).
Proof.
  unfold relu_1, ASRTF, assert.
  destruct (lb <? D.of_int 0)%D eqn:Hlb, (D.of_int 0 <? ub)%D eqn:Hub.
  - destruct (sign_conditions_order lb ub Hlb Hub) as [-> ->].
    split.
    + intros [msg Hmsg]. repeat case_match; by simpl in Hmsg.
    + intros [?|Hn]; [done|]. by destruct Hn.
  - destruct (lb <=? ub)%D; (split; [intros _; right; by intros [? ?] | intros _; by eexists]).
  - destruct (lb <=? ub)%D; (split; [intros _; right; by intros [? ?] | intros _; by eexists]).
  - destruct (lb <=? ub)%D; (split; [intros _; right; by intros [? ?] | intros _; by eexists]).
Qed.

(** Past its checks, [relu_1] returns the three rows y >= 0, y >= x and
    y <= mu x + lmd. *)
Lemma relu_1_returns (lb ub : double) :
  (lb <? D.of_int 0)%D = true -> (D.of_int 0 <? ub)%D = true ->
  (- lb * ub / (ub - lb) >? D.of_int 0)%D = true ->
  (ub / (ub - lb) >? D.of_int 0)%D = true ->
  relu_1 lb ub =
  Ok (Matrix 3 [ [D.of_int 0; D.of_int 0; D.of_int 1];
                 [D.of_int 0; D.of_int (-1); D.of_int 1];
                 [(- lb * ub / (ub - lb))%D; (ub / (ub - lb))%D; D.of_int (-1)] ]).
Proof.
  intros Hlb Hub Hlmd Hmu. unfold relu_1, ASRTF, assert.
  destruct (sign_conditions_order lb ub Hlb Hub) as [-> _].
  rewrite Hlb, Hub. cbn [andb mbind result_bind]. by rewrite Hlmd, Hmu.
Qed.

Lemma relu_1_inv (lb ub : double) (M : MatrixXd) :
  relu_1 lb ub = Ok M ->
  M = Matrix 3 [ [D.of_int 0; D.of_int 0; D.of_int 1];
                 [D.of_int 0; D.of_int (-1); D.of_int 1];
                 [(- lb * ub / (ub - lb))%D; (ub / (ub - lb))%D; D.of_int (-1)] ].
Proof.
  unfold relu_1, ASRTF, assert. intros HM.
  repeat (case_match; simpl in HM; try discriminate). by injection HM.
Qed.

(** For lb = -1 and ub = 2 both mu and lmd are the double 2.0 / 3.0. *)
Lemma relu_1_minus_one_two :
  relu_1 (D.of_int (-1)) (D.of_int 2) =
  Ok (Matrix 3 [ [D.of_int 0; D.of_int 0; D.of_int 1];
                 [D.of_int 0; D.of_int (-1); D.of_int 1];
                 [(D.of_int 2 / D.of_int 3)%D; (D.of_int 2 / D.of_int 3)%D;
                  D.of_int (-1)] ]).
Proof. by vm_compute. Qed.

(** C5.  [relu_1] at lb = -2^-600, ub = 2^-600: both are doubles, the bounds
    are in order and straddle zero, yet the call does not return a matrix.
    The product -lb * ub = 2^-1200 is below the smallest positive double and
    rounds to +0, so lmd is +0 and the check [lmd > 0] fails. *)
Theorem relu_1_aborts_on_tiny_bounds :
  let lb := (- D.pow2 (-600))%D in
  let ub := D.pow2 (-600) in
  valid_binary D.prec D.emax lb = true /\
  valid_binary D.prec D.emax ub = true /\
  (lb <=? ub)%D = true /\
  (lb <? D.of_int 0)%D = true /\ (D.of_int 0 <? ub)%D = true /\
  relu_1 lb ub = Err (AssertFailed "Expected lmd > 0.").
Proof. by vm_compute. Qed.

(** C2.  At lb = -2^-600, ub = 2^-600 the expression of the source for lmd
    evaluates to +0 and the one for mu to 1/2, while -lb ub / (ub - lb) is
    2^-601, itself a double; [relu_1] returns no rows there. *)
Theorem relu_1_lmd_underflows :
  let lb := (- D.pow2 (-600))%D in
  let ub := D.pow2 (-600) in
  (lb <? D.of_int 0)%D = true /\ (D.of_int 0 <? ub)%D = true /\
  (- lb * ub / (ub - lb))%D = S754_zero false /\
  (ub / (ub - lb))%D = D.pow2 (-1) /\
  (- D.to_Q lb * D.to_Q ub / (D.to_Q ub - D.to_Q lb) == D.to_Q (D.pow2 (-601)))%Q /\
  forall M, relu_1 lb ub <> Ok M.
Proof.
  repeat split; by vm_compute.
Qed.

(** The row (lmd, mu, -1) that these expressions give at lb = -2^-600,
    ub = 2^-600 is violated by the point x = ub, y = relu(ub) = ub. *)
Lemma tiny_bounds_row_cuts_the_graph :
  let lb := (- D.pow2 (-600))%D in
  let ub := D.pow2 (-600) in
  (dotQ [(- lb * ub / (ub - lb))%D; (ub / (ub - lb))%D; D.of_int (-1)]
        [D.of_int 1; ub; ub] < 0)%Q.
Proof. by vm_compute. Qed.

(** ** verify_fkrelu_input and fkrelu *)

Section FkreluProperties.
Context {ext : Collaborators}.

Lemma verify_fkrelu_input_Ok (A : MatrixXd) :
  verify_fkrelu_input A = Ok () -> octahedral A.
Proof.
  unfold verify_fkrelu_input, octahedral. set (K := to_int (cols A - 1)).
  intros Hv.
  apply bind_Ok in Hv as ([] & HK%ASRTF_Ok & Hv).
  apply bind_Ok in Hv as ([] & Hrows%ASRTF_Ok & Hv).
  apply bind_Ok in Hv as (coefs & Hcoefs & Hv).
  apply andb_true_iff in HK as [HK1%Z.leb_le HK4%Z.leb_le].
  apply Z.eqb_eq in Hrows. unfold POW3 in Hrows.
  split; [lia|]. split; [done|].
  intros i j Hi Hj.
  rewrite for_each_Ok, Forall_seqZ in Hv.
  specialize (Hv i ltac:(lia)).
  apply bind_Ok in Hv as (r & Hr & Hv).
  apply bind_Ok in Hv as (coef_row & Hcr & Hv).
  rewrite for_each_Ok, Forall_seqZ in Hv.
  specialize (Hv j ltac:(lia)).
  apply bind_Ok in Hv as (x & Hx & Hv).
  apply bind_Ok in Hv as (c & Hc & Hv%ASRTF_Ok).
  exists x, c. unfold coeff, coef_entry.
  rewrite Hr, Hcoefs. simpl. rewrite Hcr. by simpl.
Qed.

Lemma octahedral_verify_fkrelu_input (A : MatrixXd) :
  octahedral A -> verify_fkrelu_input A = Ok ().
Proof.
  unfold verify_fkrelu_input, octahedral. set (K := to_int (cols A - 1)).
  intros (HK & Hrows & Hcoef).
  assert (0 < rows A) as Hpos.
  { rewrite Hrows. pose proof (Z.pow_le_mono_r 3 1 K). lia. }
  destruct (Hcoef 0 0 ltac:(lia) ltac:(lia)) as (x0 & c0 & _ & Hentry & _).
  unfold coef_entry in Hentry. apply bind_Ok in Hentry as (coefs & Hcoefs & _).
  apply bind_Ok. exists (). split.
  { apply ASRTF_Ok, andb_true_iff. split; apply Z.leb_le; lia. }
  apply bind_Ok. exists (). split.
  { apply ASRTF_Ok, Z.eqb_eq. unfold POW3. lia. }
  rewrite Hcoefs. simpl.
  apply for_each_Ok, Forall_seqZ. intros i Hi.
  destruct (Hcoef i 0 ltac:(lia) ltac:(lia)) as (x1 & c1 & Hx0 & Hc0 & _).
  unfold coeff in Hx0. apply bind_Ok in Hx0 as (r & Hr & _).
  unfold coef_entry in Hc0. rewrite Hcoefs in Hc0. simpl in Hc0.
  apply bind_Ok in Hc0 as (coef_row & Hcr & _).
  rewrite Hr, Hcr. simpl.
  apply for_each_Ok, Forall_seqZ. intros j Hj.
  destruct (Hcoef i j ltac:(lia) ltac:(lia)) as (x & c & Hx & Hc & Heq).
  unfold coeff in Hx. rewrite Hr in Hx. simpl in Hx.
  unfold coef_entry in Hc. rewrite Hcoefs in Hc. simpl in Hc. rewrite Hcr in Hc.
  simpl in Hc. rewrite Hx, Hc. simpl. by apply ASRTF_Ok.
Qed.

(** With a matrix for input and a complete table, the verification either
    accepts or raises one of its three messages. *)
Lemma verify_fkrelu_input_cases (A : MatrixXd) :
  wf_matrix A -> coefs_wf ->
  verify_fkrelu_input A = Ok () \/
  exists msg, msg ∈ malformed_input_messages /\
              verify_fkrelu_input A = Err (AsrtfFailed msg).
Proof.
  intros [Hcols Hwf] Htable.
  destruct (verify_fkrelu_input A) as [[]|e] eqn:Hv; [by left|right].
  unfold verify_fkrelu_input in Hv. set (K := to_int (cols A - 1)) in *.
  unfold ASRTF in Hv at 1.
  destruct ((1 <=? K) && (K <=? 4)) eqn:HK; simpl in Hv.
  2: { injection Hv as <-. eexists. split; [|done]. apply list_elem_of_In; simpl; tauto. }
  apply andb_true_iff in HK as [HK1%Z.leb_le HK4%Z.leb_le].
  unfold ASRTF in Hv at 1.
  destruct (rows A =? POW3 K - 1) eqn:Hrows; simpl in Hv.
  2: { injection Hv as <-. eexists. split; [|done]. apply list_elem_of_In; simpl; tauto. }
  apply Z.eqb_eq in Hrows.
  destruct (Htable K ltac:(lia)) as (coefs & Hcoefs & Hlen & Hrowlen).
  rewrite Hcoefs in Hv. simpl in Hv.
  apply for_each_Err in Hv as (i & Hi%elem_of_seqZ & Hv).
  destruct (at_in_range (coefficients A) i) as [r Hr]; [unfold rows in Hi; lia|].
  destruct (at_in_range coefs i) as [coef_row Hcr]; [lia|].
  unfold row in Hv. rewrite Hr, Hcr in Hv. simpl in Hv.
  apply for_each_Err in Hv as (j & Hj%elem_of_seqZ & Hv).
  assert (Z.of_nat (length r) = cols A) as Hrlen.
  { apply at_Ok in Hr as [_ Hr]. by eapply Forall_lookup_1 in Hwf. }
  assert (Z.of_nat (length coef_row) = K) as Hcrlen.
  { apply at_Ok in Hcr as [_ Hcr]. by eapply Forall_lookup_1 in Hrowlen. }
  pose proof (to_int_cols (cols A) Hcols HK1) as Hwide. fold K in Hwide.
  destruct (at_in_range r (j + 1)) as [x Hx]; [lia|].
  destruct (at_in_range coef_row j) as [c Hc]; [lia|].
  rewrite Hx, Hc in Hv. simpl in Hv. unfold ASRTF in Hv.
  destruct (x == D.of_int c)%D; [done|]. injection Hv as <-.
  eexists. split; [|done]. apply list_elem_of_In; simpl; tauto.
Qed.

Lemma fkrelu_verify_Err (A : MatrixXd) (e : failure) :
  verify_fkrelu_input A = Err e -> exists e', fkrelu A = Err e' /\
    (e' = e \/ e' = AsrtfFailed "K should be within allowed range.").
Proof.
  intros Hv. unfold fkrelu. unfold ASRTF at 1.
  destruct ((1 <=? to_int (cols A - 1)) && (to_int (cols A - 1) <=? 4)); simpl.
  - rewrite Hv. simpl. eauto.
  - eauto.
Qed.

(** C3.  [fkrelu] fails with a malformed-input error, and so returns no
    matrix, unless K = A.cols() - 1 is in [1, 4], A has 3^K - 1 rows and
    every coefficient A(i, j + 1), j < K, equals entry j of row i of the
    table; the verification accepts exactly these inputs. *)
Theorem fkrelu_rejects_malformed_input (A : MatrixXd) :
  wf_matrix A -> coefs_wf ->
  (verify_fkrelu_input A = Ok () <-> octahedral A) /\
  (~ octahedral A ->
   exists msg, msg ∈ malformed_input_messages /\ fkrelu A = Err (AsrtfFailed msg)).
Proof.
  intros HA Htable. split.
  - split; [apply verify_fkrelu_input_Ok | apply octahedral_verify_fkrelu_input].
  - intros Hno.
    destruct (verify_fkrelu_input_cases A HA Htable) as [Hok|(msg & Hmsg & Hv)].
    + by apply verify_fkrelu_input_Ok in Hok.
    + destruct (fkrelu_verify_Err A _ Hv) as (e' & -> & [->| ->]).
      * by exists msg.
      * eexists. split; [|done]. apply list_elem_of_In; simpl; tauto.
Qed.

(** *** The loop over the quadrants *)

Lemma quadrant_pdd_empty (A : MatrixXd) (K : Z) (quadrant : Quadrant)
    (incidence : list bset) :
  quadrant_pdd A K quadrant {| V := []; V_to_H_incidence := incidence |} =
  Ok (empty_pdd K).
Proof. reflexivity. Qed.

Lemma fill_quadrant2pdd_lookup (A : MatrixXd) (K : Z)
    (entries : list (Quadrant * QuadrantInfo)) :
  NoDup entries.*1 ->
  forall (acc quadrant2pdd : gmap Quadrant PDD),
  fill_quadrant2pdd A K entries acc = Ok quadrant2pdd ->
  (forall quadrant info, (quadrant, info) ∈ entries ->
     exists pdd, quadrant_pdd A K quadrant info = Ok pdd /\
                 quadrant2pdd !! quadrant = Some pdd) /\
  (forall quadrant, quadrant ∉ entries.*1 ->
     quadrant2pdd !! quadrant = acc !! quadrant).
Proof.
  induction entries as [|[q0 info0] rest IH]; intros Hnodup acc m Hfill.
  - simpl in Hfill. injection Hfill as <-. split; [|done].
    intros q info Hin. by apply elem_of_nil in Hin.
  - simpl in Hfill, Hnodup. apply NoDup_cons in Hnodup as [Hfresh Hnodup].
    apply bind_Ok in Hfill as (pdd0 & Hpdd0 & Hfill).
    destruct (IH Hnodup _ _ Hfill) as [Hin Hout]. split.
    + intros q info [[= -> ->]|Hrest]%elem_of_cons.
      * exists pdd0. split; [done|]. by rewrite Hout, lookup_insert_eq.
      * by apply Hin.
    + intros q Hq. apply not_elem_of_cons in Hq as [Hne Hq].
      by rewrite Hout, lookup_insert_ne.
Qed.

(** Every quadrant of [quadrant2info], and no other, gets the PDD that the
    loop body computes for it. *)
Lemma fkrelu_quadrant2pdd_lookup (A : MatrixXd) (K : Z)
    (quadrant2pdd : gmap Quadrant PDD) :
  fkrelu_quadrant2pdd A K = Ok quadrant2pdd ->
  exists oct quadrant2info,
    compute_octahedron_V A = Ok oct /\
    split_in_quadrants (oct_V oct) (oct_incidence oct)
                       (oct_orthant_adjacencies oct) K = Ok quadrant2info /\
    forall quadrant,
      match quadrant2info !! quadrant with
      | Some info => exists pdd, quadrant_pdd A K quadrant info = Ok pdd /\
                                 quadrant2pdd !! quadrant = Some pdd
      | None => quadrant2pdd !! quadrant = None
      end.
Proof.
  unfold fkrelu_quadrant2pdd. intros Hrun.
  apply bind_Ok in Hrun as (oct & Hoct & Hrun).
  apply bind_Ok in Hrun as (q2i & Hsplit & Hfill).
  exists oct, q2i. split; [done|]. split; [done|].
  destruct (fill_quadrant2pdd_lookup A K (map_to_list q2i)
              (NoDup_fst_map_to_list q2i) _ _ Hfill) as [Hin Hout].
  intros q. destruct (q2i !! q) as [info|] eqn:Hq.
  - apply Hin. by apply elem_of_map_to_list.
  - rewrite Hout, lookup_empty; [done|].
    intros ([q' info] & -> & Hin')%list_elem_of_fmap.
    apply elem_of_map_to_list in Hin'. simpl in Hq. congruence.
Qed.

Lemma quadrant2pdd_of_quadrant2info (A : MatrixXd) (K : Z) (oct : OctahedronV)
    (quadrant2info : gmap Quadrant QuadrantInfo)
    (quadrant2pdd : gmap Quadrant PDD) :
  compute_octahedron_V A = Ok oct ->
  split_in_quadrants (oct_V oct) (oct_incidence oct)
                     (oct_orthant_adjacencies oct) K = Ok quadrant2info ->
  fkrelu_quadrant2pdd A K = Ok quadrant2pdd ->
  forall quadrant,
    match quadrant2info !! quadrant with
    | Some info => exists pdd, quadrant_pdd A K quadrant info = Ok pdd /\
                               quadrant2pdd !! quadrant = Some pdd
    | None => quadrant2pdd !! quadrant = None
    end.
Proof.
  intros Hoct Hsplit Hrun.
  destruct (fkrelu_quadrant2pdd_lookup A K _ Hrun) as (oct' & q2i' & Hoct' & Hsplit' & Hall).
  rewrite Hoct in Hoct'. injection Hoct' as <-.
  rewrite Hsplit in Hsplit'. by injection Hsplit' as <-.
Qed.

(** C8.  A quadrant whose vertex list is empty is recorded in
    [quadrant2pdd], not left out: its PDD has dimension K + 1, a 0 x (K + 1)
    vertex matrix, a 0 x (K + 1) halfspace matrix and no incidence. *)
Theorem empty_quadrant_is_recorded (A : MatrixXd) (K : Z) (oct : OctahedronV)
    (quadrant2info : gmap Quadrant QuadrantInfo)
    (quadrant2pdd : gmap Quadrant PDD)
    (quadrant : Quadrant) (info : QuadrantInfo) :
  compute_octahedron_V A = Ok oct ->
  split_in_quadrants (oct_V oct) (oct_incidence oct)
                     (oct_orthant_adjacencies oct) K = Ok quadrant2info ->
  fkrelu_quadrant2pdd A K = Ok quadrant2pdd ->
  quadrant2info !! quadrant = Some info ->
  V info = [] ->
  exists pdd,
    quadrant2pdd !! quadrant = Some pdd /\
    pdd_dim pdd = K + 1 /\
    rows (pdd_V pdd) = 0 /\ cols (pdd_V pdd) = K + 1 /\
    rows (pdd_H pdd) = 0 /\ cols (pdd_H pdd) = K + 1 /\
    pdd_incidence pdd = [].
Proof.
  intros Hoct Hsplit Hrun Hq Hempty.
  pose proof (quadrant2pdd_of_quadrant2info A K _ _ _ Hoct Hsplit Hrun quadrant) as Hall.
  rewrite Hq in Hall.
  destruct Hall as (pdd & Hpdd & Hlookup).
  destruct info as [vs incidence]. simpl in Hempty. subst vs.
  rewrite quadrant_pdd_empty in Hpdd. injection Hpdd as <-.
  exists (empty_pdd K). by repeat split.
Qed.

(** *** The halfspace matrix of a quadrant *)

Lemma halfspace_of_maximal_Ok (A : MatrixXd) (K : Z) (quadrant : Quadrant)
    (incidence : list bset) (maximal : Z) (h : list double) (b : bset) :
  halfspace_of_maximal A K quadrant incidence maximal = Ok (h, b) ->
  at_ incidence maximal = Ok b /\
  ((maximal < rows A /\ row A maximal = Ok h /\ Z.of_nat (length h) = K + 1) \/
   (rows A <= maximal /\ 0 <= maximal - rows A < K /\
    exists sign, at_ quadrant (maximal - rows A) = Ok sign /\
      h = <[Z.to_nat (maximal - rows A + 1) := facet_coefficient sign]> (zero_row K))).
Proof.
  unfold halfspace_of_maximal. intros Hrun.
  apply bind_Ok in Hrun as (b' & Hb & Hrun).
  destruct (Z.ltb_spec maximal (rows A)) as [Hlt|Hge].
  - apply bind_Ok in Hrun as (h' & Hh & Hrun).
    apply bind_Ok in Hrun as ([] & Hlen%assert_Ok & [= <- <-]).
    apply Z.eqb_eq in Hlen. split; [done|]. by left.
  - apply bind_Ok in Hrun as ([] & Hxi%assert_Ok & Hrun).
    apply bind_Ok in Hrun as (sign & Hsign & Hrun).
    apply andb_true_iff in Hxi as [Hxi0%Z.leb_le HxiK%Z.ltb_lt].
    split.
    + by destruct sign; simpl in Hrun; injection Hrun as <- <-.
    + right. split; [done|]. split; [lia|]. exists sign. split; [done|].
      by destruct sign; simpl in Hrun; injection Hrun as <- <-.
Qed.

Lemma quadrant_pdd_nonempty (A : MatrixXd) (K : Z) (quadrant : Quadrant)
    (info : QuadrantInfo) (pdd : PDD) :
  V info <> [] ->
  quadrant_pdd A K quadrant info = Ok pdd ->
  exists Vd incidence maximal_H built,
    mpq_convert2eigen (K + 1) (V info) = Ok Vd /\
    transpose_incidence (V_to_H_incidence info) = Ok incidence /\
    compute_maximal_indexes incidence = Ok maximal_H /\
    Forall2 (fun maximal hb =>
               halfspace_of_maximal A K quadrant incidence maximal = Ok hb)
            maximal_H built /\
    pdd = {| pdd_dim := K + 1; pdd_V := Vd; pdd_H := Matrix (K + 1) (built.*1);
             pdd_incidence := built.*2 |}.
Proof.
  intros Hne. unfold quadrant_pdd. rewrite bool_decide_eq_false_2 by done.
  intros Hrun.
  apply bind_Ok in Hrun as (Vd & HVd & Hrun).
  apply bind_Ok in Hrun as ([] & _ & Hrun).
  apply bind_Ok in Hrun as (incidence & Hinc & Hrun).
  apply bind_Ok in Hrun as ([] & _ & Hrun).
  apply bind_Ok in Hrun as (maximal_H & Hmax & Hrun).
  apply bind_Ok in Hrun as (built & Hbuilt%collect_Ok & [= <-]).
  by exists Vd, incidence, maximal_H, built.
Qed.

Lemma zero_row_facet_lookup (K xi : Z) (c : double) (j : nat) :
  0 <= xi < K -> Z.of_nat j < K + 1 ->
  <[Z.to_nat (xi + 1) := c]> (zero_row K) !! j =
  Some (if decide (Z.of_nat j = xi + 1) then c else D.of_int 0).
Proof.
  intros Hxi Hj. unfold zero_row. rewrite list_lookup_insert, length_replicate.
  destruct (decide (Z.of_nat j = xi + 1)) as [Heq|Hne].
  - rewrite decide_True; [done|]. split; lia.
  - rewrite decide_False by lia. apply lookup_replicate_2. lia.
Qed.

Lemma halfspace_of_maximal_length (A : MatrixXd) (K : Z) (quadrant : Quadrant)
    (incidence : list bset) (maximal : Z) (h : list double) (b : bset) :
  halfspace_of_maximal A K quadrant incidence maximal = Ok (h, b) ->
  Z.of_nat (length h) = K + 1.
Proof.
  intros [_ [(_ & _ & Hlen)|(_ & Hxi & sign & _ & ->)]]%halfspace_of_maximal_Ok; [done|].
  rewrite length_insert. unfold zero_row. rewrite length_replicate. lia.
Qed.

(** C7.  For a quadrant with vertices, row i of its halfspace matrix H comes
    from the maximal index m = maximal_H[i]: if m < A.rows() it is row m of
    A; otherwise it is zero everywhere except in column (m - A.rows()) + 1,
    where it is -1 if the quadrant's sign for dimension m - A.rows() is
    MINUS and +1 if it is PLUS. *)
Theorem halfspace_rows_of_quadrant (A : MatrixXd) (K : Z) (oct : OctahedronV)
    (quadrant2info : gmap Quadrant QuadrantInfo)
    (quadrant2pdd : gmap Quadrant PDD)
    (quadrant : Quadrant) (info : QuadrantInfo) :
  compute_octahedron_V A = Ok oct ->
  split_in_quadrants (oct_V oct) (oct_incidence oct)
                     (oct_orthant_adjacencies oct) K = Ok quadrant2info ->
  fkrelu_quadrant2pdd A K = Ok quadrant2pdd ->
  quadrant2info !! quadrant = Some info ->
  V info <> [] ->
  exists pdd incidence maximal_H,
    quadrant2pdd !! quadrant = Some pdd /\
    transpose_incidence (V_to_H_incidence info) = Ok incidence /\
    compute_maximal_indexes incidence = Ok maximal_H /\
    rows (pdd_H pdd) = Z.of_nat (length maximal_H) /\
    cols (pdd_H pdd) = K + 1 /\
    forall (i : nat) (m : Z), maximal_H !! i = Some m ->
      exists h, coefficients (pdd_H pdd) !! i = Some h /\
        (m < rows A -> row A m = Ok h) /\
        (rows A <= m ->
         exists sign, at_ quadrant (m - rows A) = Ok sign /\
           Z.of_nat (length h) = K + 1 /\
           forall j : nat, Z.of_nat j < K + 1 ->
             h !! j = Some (if decide (Z.of_nat j = (m - rows A) + 1)
                            then match sign with
                                 | MINUS => D.of_int (-1)
                                 | PLUS => D.of_int 1
                                 end
                            else D.of_int 0)).
Proof.
  intros Hoct Hsplit Hrun Hq Hne.
  pose proof (quadrant2pdd_of_quadrant2info A K _ _ _ Hoct Hsplit Hrun quadrant) as Hall.
  rewrite Hq in Hall.
  destruct Hall as (pdd & Hpdd & Hlookup).
  destruct (quadrant_pdd_nonempty A K quadrant info pdd Hne Hpdd)
    as (Vd & incidence & maximal_H & built & HVd & Hinc & Hmax & Hbuilt & ->).
  eexists. exists incidence, maximal_H.
  split; [exact Hlookup|]. split; [done|]. split; [done|].
  simpl. split.
  { unfold rows. simpl. rewrite length_fmap. f_equal. symmetry.
    by eapply Forall2_length. }
  split; [done|].
  intros i m Hm.
  destruct (Forall2_lookup_l _ _ _ _ _ Hbuilt Hm) as ([h b] & Hhb & Hrow).
  exists h. split.
  { by rewrite list_lookup_fmap, Hhb. }
  apply halfspace_of_maximal_Ok in Hrow
    as [_ [(Hlt & Hrow & _)|(Hge & Hxi & sign & Hsign & ->)]].
  - split; [done | lia].
  - split; [lia|]. intros _. exists sign. split; [done|]. split.
    + rewrite length_insert. unfold zero_row. rewrite length_replicate. lia.
    + intros j Hj. rewrite zero_row_facet_lookup by done.
      by destruct sign.
Qed.

(** *** Vertices against halfspaces *)

Lemma dotQ_dot_exact (h v : list double) : dotQ h v = dot_exact h (D.to_Q <$> v).
Proof.
  revert v. induction h as [|x h IH]; intros [|y v]; simpl; try done.
  by rewrite IH.
Qed.

Lemma dot_exact_proper (h : list double) (v v' : mpq_vector) :
  Forall2 Qeq v v' -> (dot_exact h v == dot_exact h v')%Q.
Proof.
  intros Hv. revert h. induction Hv as [|y y' v v' Hy _ IH]; intros [|x h]; simpl;
    try reflexivity.
  by rewrite Hy, IH.
Qed.

Lemma dot_exact_zero_row (n : nat) (v : mpq_vector) :
  (dot_exact (replicate n (D.of_int 0)) v == 0)%Q.
Proof.
  revert v. induction n as [|n IH]; intros [|y v]; cbn [replicate dot_exact];
    try reflexivity.
  rewrite IH. assert (D.to_Q (D.of_int 0) == 0)%Q as -> by reflexivity. ring.
Qed.

Lemma dot_exact_facet (n m : nat) (c : double) (v : mpq_vector) :
  (n < m)%nat ->
  (dot_exact (<[n := c]> (replicate m (D.of_int 0))) v ==
   match v !! n with Some x => D.to_Q c * x | None => 0 end)%Q.
Proof.
  revert m v. induction n as [|n IH]; intros [|m] [|y v] Hn; try lia;
    cbn [replicate insert list_insert dot_exact lookup list_lookup];
    try reflexivity.
  - rewrite dot_exact_zero_row. ring.
  - rewrite IH by lia.
    assert (D.to_Q (D.of_int 0) == 0)%Q as -> by reflexivity.
    destruct (v !! n); ring.
Qed.

Lemma facet_satisfied (K xi : Z) (quadrant : Quadrant) (sign : Polarity)
    (v : mpq_vector) :
  0 <= xi < K ->
  at_ quadrant xi = Ok sign ->
  mpq_in_quadrant quadrant v ->
  (0 <= dot_exact (<[Z.to_nat (xi + 1) := facet_coefficient sign]> (zero_row K)) v)%Q.
Proof.
  intros Hxi [_ Hsign]%at_Ok Hv. unfold zero_row.
  rewrite dot_exact_facet by lia.
  replace (Z.to_nat (xi + 1)) with (S (Z.to_nat xi)) by lia.
  destruct (v !! S (Z.to_nat xi)) as [x|] eqn:Hx; [|apply Qle_refl].
  specialize (Hv _ _ _ Hsign Hx).
  destruct sign; simpl in Hv |- *.
  - assert (D.to_Q (D.of_int (-1)) * x == - x)%Q as ->.
    { assert (D.to_Q (D.of_int (-1)) == -1)%Q as -> by reflexivity. ring. }
    by apply (Qopp_le_compat _ 0).
  - assert (D.to_Q (D.of_int 1) == 1)%Q as -> by reflexivity.
    by rewrite Qmult_1_l.
Qed.

Lemma facet_finite (K xi : Z) (sign : Polarity) :
  Forall (fun x => D.is_finite x = true)
         (<[Z.to_nat (xi + 1) := facet_coefficient sign]> (zero_row K)).
Proof.
  apply Forall_insert; [|by destruct sign].
  unfold zero_row. by apply Forall_replicate.
Qed.

(** Every exact vertex of a quadrant satisfies every row of the quadrant's
    halfspace matrix that has an exact value; the rows are as wide as the
    vertices, and finite when A is. *)
Lemma exact_vertices_satisfy_halfspaces (A : MatrixXd) (K : Z)
    (quadrant : Quadrant) (info : QuadrantInfo) (pdd : PDD) (h : list double) :
  exact_vertices_ok A K quadrant info ->
  quadrant_pdd A K quadrant info = Ok pdd ->
  h ∈ coefficients (pdd_H pdd) ->
  Z.of_nat (length h) = K + 1 /\
  (matrix_finite A -> Forall (fun x => D.is_finite x = true) h) /\
  (Forall (fun x => D.is_finite x = true) h ->
   forall v, v ∈ V info -> (0 <= dot_exact h v)%Q).
Proof.
  intros Hok Hpdd Hh. destruct (decide (V info = [])) as [Hempty|Hne].
  { destruct info as [vs inc]. simpl in Hempty. subst vs.
    rewrite quadrant_pdd_empty in Hpdd. injection Hpdd as <-.
    by apply elem_of_nil in Hh. }
  destruct (quadrant_pdd_nonempty A K quadrant info pdd Hne Hpdd)
    as (Vd & incidence & maximal_H & built & HVd & _ & _ & Hbuilt & ->).
  simpl in Hh.
  apply list_elem_of_fmap in Hh as ([h' b] & -> & Hin). simpl.
  apply list_elem_of_lookup in Hin as [i Hi].
  destruct (Forall2_lookup_r _ _ _ _ _ Hbuilt Hi) as (m & _ & Hrow).
  split.
  { by apply halfspace_of_maximal_length in Hrow. }
  apply halfspace_of_maximal_Ok in Hrow
    as [_ [(_ & Hrow & _)|(_ & Hxi & sign & Hsign & ->)]].
  - apply at_Ok in Hrow as [_ Hrow]. split.
    + intros HA. by eapply Forall_lookup_1 in HA.
    + intros Hfin v Hv. destruct (Hok v Hv) as (_ & _ & Hrows).
      apply Hrows; [by eapply list_elem_of_lookup_2 | done].
  - split; [intros _; apply facet_finite|].
    intros _ v Hv. destruct (Hok v Hv) as (_ & Hsigns & _).
    by eapply facet_satisfied.
Qed.

(** C1.  Soundness of the per-quadrant dual descriptions, for the exact
    vertices: every exact vertex v that the per-quadrant solver is handed
    satisfies every row h of the halfspace matrix of its quadrant's PDD,
    h . v >= 0 in exact arithmetic, for every row that has an exact value;
    h is as wide as v, and finite when A is.  The vertex rows stored in the
    PDD are doubles: they satisfy the rows as well where their conversion
    was exact. *)
Theorem quadrant_vertices_satisfy_halfspaces (A : MatrixXd) (K : Z)
    (oct : OctahedronV) (quadrant2info : gmap Quadrant QuadrantInfo)
    (quadrant2pdd : gmap Quadrant PDD) :
  compute_octahedron_V A = Ok oct ->
  split_in_quadrants (oct_V oct) (oct_incidence oct)
                     (oct_orthant_adjacencies oct) K = Ok quadrant2info ->
  (forall quadrant info, quadrant2info !! quadrant = Some info ->
     exact_vertices_ok A K quadrant info) ->
  fkrelu_quadrant2pdd A K = Ok quadrant2pdd ->
  forall quadrant info pdd h,
    quadrant2info !! quadrant = Some info ->
    quadrant2pdd !! quadrant = Some pdd ->
    h ∈ coefficients (pdd_H pdd) ->
    (matrix_finite A -> Forall (fun x => D.is_finite x = true) h) /\
    (Forall (fun x => D.is_finite x = true) h ->
     (forall v, v ∈ V info ->
        length h = length v /\ (0 <= dot_exact h v)%Q) /\
     (converted_exactly (V info) (pdd_V pdd) ->
      forall v, v ∈ coefficients (pdd_V pdd) ->
        length h = length v /\
        Forall (fun x => D.is_finite x = true) v /\
        (0 <= dotQ h v)%Q)).
Proof.
  intros Hoct Hsplit Hok Hrun q info pdd h Hinfo Hq Hh.
  pose proof (quadrant2pdd_of_quadrant2info A K _ _ _ Hoct Hsplit Hrun q) as Hall.
  rewrite Hinfo in Hall. destruct Hall as (pdd' & Hpdd & Hq').
  rewrite Hq in Hq'. injection Hq' as <-.
  destruct (exact_vertices_satisfy_halfspaces A K q info pdd h (Hok q info Hinfo) Hpdd Hh)
    as (Hwidth & Hfinite & Hsat).
  split; [done|]. intros Hfin.
  assert (forall v, v ∈ V info ->
            length h = length v /\ (0 <= dot_exact h v)%Q) as Hexact.
  { intros v Hv. split; [|by apply Hsat].
    destruct (Hok q info Hinfo v Hv) as (Hv' & _). lia. }
  split; [done|].
  intros Hconv v Hv. apply list_elem_of_lookup in Hv as [i Hi].
  destruct (Forall2_lookup_r _ _ _ _ _ Hconv Hi) as (w & Hw & Hrow).
  apply list_elem_of_lookup_2 in Hw. destruct (Hexact w Hw) as [Hlen Hle].
  split; [|split].
  - rewrite Hlen. by eapply Forall2_length.
  - clear -Hrow. induction Hrow as [|x d w v [Hd _] _ IH]; by constructor.
  - rewrite dotQ_dot_exact, (dot_exact_proper h (D.to_Q <$> v) w); [done|].
    clear -Hrow. induction Hrow as [|x d w v [_ Hd] _ IH]; simpl; by constructor.
Qed.

(** *** The shape of the result *)


(** On an accepted input with K = 1, [fkrelu] is [relu_1] on the bounds it
    reads from the first column of A. *)
Lemma fkrelu_is_relu_1 (A : MatrixXd) :
  to_int (cols A - 1) = 1 ->
  verify_fkrelu_input A = Ok () ->
  exists a00 a10,
    coeff A 0 0 = Ok a00 /\ coeff A 1 0 = Ok a10 /\
    fkrelu A = relu_1 (- a00)%D a10.
Proof.
  intros HK Hv. pose proof (verify_fkrelu_input_Ok A Hv) as (_ & Hrows & Hcoef).
  rewrite HK in Hrows, Hcoef. change (3 ^ 1 - 1) with 2 in Hrows.
  assert (forall i, 0 <= i < 2 -> exists a, coeff A i 0 = Ok a) as Hcol0.
  { intros i Hi. destruct (Hcoef i 0 ltac:(lia) ltac:(lia)) as (x & _ & Hx & _).
    unfold coeff in Hx |- *. apply bind_Ok in Hx as (r & -> & Hx). simpl.
    apply at_Ok in Hx as [_ Hx%lookup_lt_Some]. apply at_in_range. simpl in Hx. lia. }
  destruct (Hcol0 0 ltac:(lia)) as [a00 H00], (Hcol0 1 ltac:(lia)) as [a10 H10].
  exists a00, a10. split; [done|]. split; [done|].
  unfold fkrelu. rewrite HK, Hv, H00, H10. reflexivity.
Qed.


End FkreluProperties.

(** ** krelu_with_cdd *)

Lemma loop_app {A S} (l1 l2 : list A) (body : S -> A -> result S) (s : S) :
  loop (l1 ++ l2) body s = s' ← loop l1 body s; loop l2 body s'.
Proof.
  revert s. induction l1 as [|x l1 IH]; intros s; simpl; [done|].
  destruct (body s x); simpl; [apply IH | done].
Qed.

Lemma at_nat {A} (v : list A) (i : nat) (x : A) :
  v !! i = Some x -> at_ v (Z.of_nat i) = Ok x.
Proof. intros Hx. apply at_Ok. rewrite Nat2Z.id. split; [lia | done]. Qed.

Lemma set_at_nat {A} (v : list A) (i : nat) (x : A) :
  (i < length v)%nat -> set_at v (Z.of_nat i) x = Ok (<[i := x]> v).
Proof.
  intros Hi. unfold set_at.
  destruct (Z.ltb_spec (Z.of_nat i) 0); [lia|].
  destruct (Z.leb_spec (Z.of_nat (length v)) (Z.of_nat i)); [lia|].
  simpl. by rewrite Nat2Z.id.
Qed.

(** The first inner loop copies the K + 1 coordinates of the vertex. *)
Lemma copy_coordinates (v p : mpq_vector) (n : nat) :
  (n <= length v)%nat -> (n <= length p)%nat ->
  loop (seqZ 0 (Z.of_nat n))
       (fun v_projection i => x ← at_ v i; set_at v_projection i x) p =
  Ok (take n v ++ drop n p).
Proof.
  induction n as [|n IH]; intros Hv Hp.
  - by rewrite take_0, drop_0.
  - rewrite seqZ_S, loop_app, IH, Z.add_0_l by lia. simpl.
    destruct (lookup_lt_is_Some_2 v n ltac:(lia)) as [x Hx].
    destruct (lookup_lt_is_Some_2 p n ltac:(lia)) as [y Hy].
    rewrite (at_nat _ _ _ Hx). simpl.
    rewrite set_at_nat.
    2: { rewrite length_app, length_take, length_drop. lia. }
    simpl. f_equal.
    rewrite (take_S_r _ _ _ Hx), (drop_S _ _ _ Hy), <- app_assoc.
    rewrite insert_app_r_alt by (rewrite length_take; lia).
    rewrite length_take, Nat.min_l, Nat.sub_diag by lia. done.
Qed.

(** The second inner loop fills the output columns of the PLUS dimensions. *)
Lemma fill_output_columns (K : nat) (quadrant : Quadrant) (v pre : mpq_vector)
    (n : nat) :
  length pre = S K -> (K <= length quadrant)%nat -> (S K <= length v)%nat ->
  (n <= K)%nat ->
  loop (seqZ 0 (Z.of_nat n))
       (fun v_projection i =>
          sign ← at_ quadrant i;
          if bool_decide (sign = PLUS) then
            x ← at_ v (1 + i);
            set_at v_projection (1 + i + Z.of_nat K) x
          else Ok v_projection)
       (pre ++ replicate K 0%Q) =
  Ok (pre ++
      zip_with (fun (sign : Polarity) x => if bool_decide (sign = PLUS) then x else 0%Q)
               (take n quadrant) (take n (drop 1 v)) ++
      replicate (K - n) 0%Q).
Proof.
  intros Hpre Hq Hv. induction n as [|n IH]; intros Hn.
  - by rewrite Nat.sub_0_r.
  - rewrite seqZ_S, loop_app, IH, Z.add_0_l by lia. simpl.
    destruct (lookup_lt_is_Some_2 quadrant n ltac:(lia)) as [sign Hsign].
    destruct (lookup_lt_is_Some_2 v (S n) ltac:(lia)) as [x Hx].
    assert (drop 1 v !! n = Some x) as Hx' by by rewrite lookup_drop.
    rewrite (at_nat _ _ _ Hsign). simpl.
    rewrite (take_S_r _ _ _ Hsign), (take_S_r _ _ _ Hx').
    rewrite zip_with_app.
    2: { rewrite !length_take, length_drop. lia. }
    simpl. rewrite <- !app_assoc. simpl.
    replace (K - n)%nat with (S (K - S n)) by lia. simpl.
    set (Z := zip_with _ (take n quadrant) (take n (drop 1 v))).
    assert (length Z = n) as HZ.
    { unfold Z. rewrite length_zip_with, !length_take, length_drop. lia. }
    destruct (bool_decide (sign = PLUS)); [|done].
    replace (1 + Z.of_nat n) with (Z.of_nat (S n)) by lia.
    rewrite (at_nat _ _ _ Hx). simpl.
    replace (Z.of_nat (S n) + Z.of_nat K) with (Z.of_nat (S K + n)) by lia.
    rewrite set_at_nat.
    2: { rewrite !length_app, Hpre, HZ. simpl. lia. }
    f_equal. rewrite <- Hpre, insert_app_r.
    rewrite <- HZ at 1. replace (length Z) with (length Z + 0)%nat at 1 by lia.
    by rewrite insert_app_r.
Qed.

Lemma project_vertex_embedded (K : nat) (quadrant : Quadrant) (v : mpq_vector) :
  (K <= length quadrant)%nat -> (S K <= length v)%nat ->
  project_vertex (Z.of_nat K) quadrant v (replicate (S K + K) 0%Q) =
  Ok (embedded K quadrant v).
Proof.
  intros Hq Hv. unfold project_vertex.
  replace (Z.of_nat K + 1) with (Z.of_nat (S K)) by lia.
  rewrite copy_coordinates.
  2: lia.
  2: { rewrite length_replicate. lia. }
  rewrite Ok_bind, drop_replicate. replace (S K + K - S K)%nat with K by lia.
  replace (K + K - K)%nat with K by lia.
  rewrite (fill_output_columns K quadrant v (take (S K) v) K); try lia.
  - rewrite Nat.sub_diag. simpl. by rewrite app_nil_r.
  - rewrite length_take. lia.
Qed.

Lemma embedded_embeds (K : nat) (quadrant : Quadrant) (v : mpq_vector) :
  (K <= length quadrant)%nat -> (S K <= length v)%nat ->
  embeds (Z.of_nat K) quadrant v (embedded K quadrant v).
Proof.
  intros Hq Hv. unfold embeds, embedded.
  assert (length (take (S K) v) = S K) as Hpre by (rewrite length_take; lia).
  split; [|split].
  - rewrite length_app, Hpre, length_zip_with, !length_take, length_drop. lia.
  - intros j Hj. rewrite lookup_app_l by lia. apply lookup_take_lt. lia.
  - intros i sign Hi Hsign. rewrite Nat2Z.id.
    replace (1 + i + K)%nat with (length (take (S K) v) + i)%nat by lia.
    rewrite lookup_app_r, Nat.add_sub' by lia.
    destruct (lookup_lt_is_Some_2 v (1 + i) ltac:(lia)) as [x Hx].
    rewrite lookup_zip_with, !lookup_take_lt, lookup_drop, Hsign, Hx by lia.
    simpl. by destruct sign.
Qed.

(** The number of vertices over a list of map entries. *)
Lemma num_vertices_sum (entries : list (Quadrant * QuadrantInfo)) (n : Z) :
  foldl (fun n entry => n + Z.of_nat (length (V entry.2))) n entries =
  n + Z.of_nat (length (concat ((fun entry => V entry.2) <$> entries))).
Proof.
  revert n. induction entries as [|e entries IH]; intros n; [simpl; lia|].
  rewrite fmap_cons. cbn [foldl concat]. rewrite IH, length_app. lia.
Qed.

Lemma project_quadrant_rows (K : nat) (quadrant : Quadrant) (info : QuadrantInfo)
    (done : list mpq_vector) (n : nat) :
  (K <= length quadrant)%nat ->
  Forall (fun v => (S K <= length v)%nat) (V info) ->
  (length (V info) <= n)%nat ->
  project_quadrant (Z.of_nat K)
    (Z.of_nat (length done), done ++ replicate n (replicate (S K + K) 0%Q))
    (quadrant, info) =
  Ok (Z.of_nat (length done + length (V info)),
      (done ++ (embedded K quadrant <$> V info)) ++
      replicate (n - length (V info)) (replicate (S K + K) 0%Q)).
Proof.
  intros Hq. unfold project_quadrant. generalize (V info) as vs. clear info.
  intros vs. revert done n. induction vs as [|v vs IH]; intros done n Hvs Hn.
  - simpl. by rewrite Nat.add_0_r, Nat.sub_0_r, app_nil_r.
  - apply Forall_cons in Hvs as [Hv Hvs]. simpl in Hn.
    destruct n as [|n]; [lia|]. cbn [loop].
    rewrite (at_nat _ _ (replicate (S K + K) 0%Q)).
    2: { by rewrite lookup_app_r, Nat.sub_diag by lia. }
    rewrite Ok_bind, project_vertex_embedded, Ok_bind by done.
    rewrite set_at_nat.
    2: { rewrite length_app. simpl. lia. }
    rewrite Ok_bind, Ok_bind.
    rewrite insert_app_r_alt, Nat.sub_diag by lia. cbn [replicate insert list_insert].
    replace (Z.of_nat (length done) + 1)
      with (Z.of_nat (length (done ++ [embedded K quadrant v])))
      by (rewrite length_app; simpl; lia).
    replace (done ++ embedded K quadrant v :: replicate n (replicate (S K + K) 0%Q))
      with ((done ++ [embedded K quadrant v]) ++ replicate n (replicate (S K + K) 0%Q))
      by by rewrite <- app_assoc.
    rewrite IH by (done || lia).
    rewrite length_app. simpl. f_equal. f_equal; [lia|].
    by rewrite <- !app_assoc.
Qed.

Lemma project_entries_rows (K : nat) (entries : list (Quadrant * QuadrantInfo))
    (done : list mpq_vector) (n : nat) :
  Forall (fun entry => (K <= length entry.1)%nat /\
                       Forall (fun v => (S K <= length v)%nat) (V entry.2)) entries ->
  (length (concat ((fun entry => V entry.2) <$> entries)) <= n)%nat ->
  loop entries (project_quadrant (Z.of_nat K))
    (Z.of_nat (length done), done ++ replicate n (replicate (S K + K) 0%Q)) =
  Ok (Z.of_nat (length done + length (concat ((fun entry => V entry.2) <$> entries))),
      (done ++ concat ((fun entry => embedded K entry.1 <$> V entry.2) <$> entries)) ++
      replicate (n - length (concat ((fun entry => V entry.2) <$> entries)))
                (replicate (S K + K) 0%Q)).
Proof.
  revert done n. induction entries as [|[q info] entries IH]; intros done n Hwf Hn.
  - simpl. by rewrite Nat.add_0_r, Nat.sub_0_r, app_nil_r.
  - apply Forall_cons in Hwf as [[Hq Hvs] Hwf]. simpl in Hq, Hvs.
    rewrite fmap_cons in Hn. rewrite !fmap_cons. cbn [concat fst snd] in Hn |- *.
    rewrite length_app in Hn |- *. cbn [loop].
    rewrite project_quadrant_rows, Ok_bind by (done || lia).
    replace (Z.of_nat (length done + length (V info)))
      with (Z.of_nat (length (done ++ (embedded K q <$> V info))))
      by (rewrite length_app, length_fmap; lia).
    rewrite IH by (done || lia).
    rewrite length_app, length_fmap.
    f_equal. f_equal; [lia|]. rewrite <- !app_assoc. do 4 f_equal. lia.
Qed.

(** C9.  The generator matrix built by [krelu_with_cdd] has width 2 K + 1
    and one row per vertex over all quadrants; the row of a vertex v of a
    quadrant has v's homogeneous coordinates in its first K + 1 columns and,
    for each dimension i < K, in column 1 + i + K the coordinate 1 + i of v
    when the quadrant's sign for i is PLUS and 0 when it is MINUS. *)
Theorem cdd_generators_embed_vertices (K : Z)
    (quadrant2info : gmap Quadrant QuadrantInfo) :
  0 <= K ->
  (forall quadrant info, quadrant2info !! quadrant = Some info ->
     K <= Z.of_nat (length quadrant) /\
     Forall (fun v => K + 1 <= Z.of_nat (length v)) (V info)) ->
  exists vertices blocks,
    cdd_generators K quadrant2info = Ok vertices /\
    colsize vertices = 2 * K + 1 /\
    representation vertices = dd_Generator /\
    rowsize vertices = Z.of_nat (length (matrix vertices)) /\
    matrix vertices = concat blocks /\
    Forall2 (fun entry block => Forall2 (embeds K entry.1) (V entry.2) block)
            (map_to_list quadrant2info) blocks.
Proof.
  intros HK Hwf. unfold cdd_generators.
  set (entries := map_to_list quadrant2info).
  assert (Forall (fun entry => (Z.to_nat K <= length entry.1)%nat /\
                   Forall (fun v => (S (Z.to_nat K) <= length v)%nat) (V entry.2))
                 entries) as Hentries.
  { apply Forall_forall. intros [q info] Hin%elem_of_map_to_list.
    destruct (Hwf q info Hin) as [Hq Hvs]. simpl. split; [lia|].
    eapply Forall_impl; [exact Hvs|]. simpl. intros. lia. }
  rewrite num_vertices_sum, Z.add_0_l.
  set (total := length (concat ((fun entry => V entry.2) <$> entries))).
  unfold dd_CreateMatrix. cbn [matrix rowsize colsize].
  replace (Z.to_nat (2 * K + 1)) with (S (Z.to_nat K) + Z.to_nat K)%nat by lia.
  rewrite Nat2Z.id.
  pose proof (project_entries_rows (Z.to_nat K) entries [] total Hentries (le_n _)) as Hloop.
  rewrite Z2Nat.id in Hloop by done. cbn [app length] in Hloop.
  change (Z.of_nat 0) with 0 in Hloop. fold total in Hloop.
  rewrite Nat.sub_diag, Nat.add_0_l in Hloop. cbn [replicate] in Hloop.
  rewrite app_nil_r in Hloop.
  eexists. exists ((fun entry => embedded (Z.to_nat K) entry.1 <$> V entry.2) <$> entries).
  split.
  { rewrite Hloop, Ok_bind, Z.eqb_refl. reflexivity. }
  cbn [matrix rowsize colsize representation].
  split; [done|]. split; [done|]. split.
  { f_equal. unfold total. clear. induction entries as [|e entries IH]; [done|].
    rewrite !fmap_cons. cbn [concat]. rewrite !length_app, length_fmap. lia. }
  split; [done|].
  apply Forall2_fmap_r, Forall_Forall2_diag, Forall_forall.
  intros [q info] Hin. simpl.
  apply Forall2_fmap_r, Forall_Forall2_diag, Forall_forall. intros v Hv.
  eapply Forall_forall in Hentries as [Hq Hvs]; [|exact Hin]. simpl in Hq, Hvs.
  eapply Forall_forall in Hvs; [|exact Hv].
  rewrite <- (Z2Nat.id K) at 1 by done. by apply embedded_embeds.
Qed.

(** C10.  [krelu_with_cdd] checks the range of K = A.cols() - 1 and nothing
    else of the octahedral format: it fails when K is outside [1, 4]; its
    result depends on A only through A.cols() and the quadrants computed
    for A, not through the number of rows or the coefficients; and there is
    an input that [fkrelu] rejects for its row count on which
    [krelu_with_cdd] goes through to a result. *)
Theorem krelu_with_cdd_checks_only_K :
  (forall (ext : Collaborators) (A : MatrixXd),
     ~ 1 <= to_int (cols A - 1) <= 4 ->
     krelu_with_cdd A = Err (AsrtfFailed "K should be within allowed range.")) /\
  (forall (ext : Collaborators) (A A' : MatrixXd),
     cols A = cols A' ->
     compute_quadrants_with_cdd A = compute_quadrants_with_cdd A' ->
     krelu_with_cdd A = krelu_with_cdd A') /\
  (fkrelu (ext := Sample.collaborators) Sample.A2_short =
     Err (AsrtfFailed "Unexpected number of rows in the input.") /\
   exists H, krelu_with_cdd (ext := Sample.collaborators) Sample.A2_short = Ok H).
Proof.
  split; [|split].
  - intros ext A HK. unfold krelu_with_cdd, ASRTF.
    destruct (Z.leb_spec 1 (to_int (cols A - 1))), (Z.leb_spec (to_int (cols A - 1)) 4); simpl; try done.
    lia.
  - intros ext A A' Hcols Hq. unfold krelu_with_cdd. by rewrite Hcols, Hq.
  - split; [by vm_compute|]. eexists. by vm_compute.
Qed.

Lemma krelu_with_cdd_checks_only_K_witness :
  krelu_with_cdd (ext := Sample.collaborators) Sample.A2 =
  krelu_with_cdd (ext := Sample.collaborators) Sample.A2_short.
Proof.
  apply (proj1 (proj2 krelu_with_cdd_checks_only_K)); reflexivity.
Defined.

(** ** The sample run *)

Lemma sample_coefs_wf : coefs_wf (ext := Sample.collaborators).
Proof.
  intros K HK.
  assert (K = 1 \/ K = 2 \/ K = 3 \/ K = 4) as [->|[->|[->| ->]]] by lia;
    (eexists; split; [reflexivity|]; split; [by vm_compute|];
     apply (bool_decide_unpack _); by vm_compute).
Qed.

Lemma sample_quadrants_inv (quadrant : Quadrant) (info : QuadrantInfo) :
  Sample.quadrants !! quadrant = Some info ->
  (quadrant, info) ∈
    [ ([MINUS; MINUS], Sample.info_of []);
      ([MINUS; PLUS], Sample.info_of []);
      ([PLUS; MINUS], Sample.info_of [Sample.vertex 1 (-1); Sample.vertex 2 (-1);
                                      Sample.vertex 1 0; Sample.vertex 2 0]);
      ([PLUS; PLUS], Sample.info_of [Sample.vertex 1 0; Sample.vertex 2 0;
                                     Sample.vertex 1 1; Sample.vertex 2 1]) ].
Proof. apply elem_of_list_to_map_2. Qed.

Lemma sample_exact_vertices_ok (quadrant : Quadrant) (info : QuadrantInfo) :
  Sample.quadrants !! quadrant = Some info ->
  exact_vertices_ok Sample.A2 2 quadrant info.
Proof.
  intros Hin%sample_quadrants_inv v Hv.
  repeat (apply elem_of_cons in Hin as [[= -> ->]|Hin];
    [simpl in Hv;
     repeat (apply elem_of_cons in Hv as [->|Hv];
       [split; [reflexivity|]; split;
        [intros [|[|i]] sign x Hsign Hx; simpl in Hsign, Hx; simplify_eq;
         unfold Qle; simpl; lia
        |intros h Hh _;
         repeat (apply elem_of_cons in Hh as [->|Hh]; [by vm_compute|]);
         by apply elem_of_nil in Hh]|]);
     by apply elem_of_nil in Hv|]).
  by apply elem_of_nil in Hin.
Qed.

Lemma rounded_quadrants_inv (quadrant : Quadrant) (info : QuadrantInfo) :
  Rounded.quadrants !! quadrant = Some info ->
  (quadrant, info) ∈
    [ ([MINUS; MINUS], {| V := []; V_to_H_incidence := [] |});
      ([MINUS; PLUS], {| V := []; V_to_H_incidence := [] |});
      ([PLUS; MINUS], {| V := []; V_to_H_incidence := [] |});
      ([PLUS; PLUS], {| V := Rounded.vertices;
                        V_to_H_incidence := Rounded.incidence_of <$> Rounded.vertices |}) ].
Proof. apply elem_of_list_to_map_2. Qed.

Lemma rounded_exact_vertices_ok (quadrant : Quadrant) (info : QuadrantInfo) :
  Rounded.quadrants !! quadrant = Some info ->
  exact_vertices_ok Rounded.A2 2 quadrant info.
Proof.
  intros Hin%rounded_quadrants_inv v Hv.
  repeat (apply elem_of_cons in Hin as [[= -> ->]|Hin];
    [simpl in Hv;
     repeat (apply elem_of_cons in Hv as [->|Hv];
       [split; [reflexivity|]; split;
        [intros [|[|i]] sign x Hsign Hx; simpl in Hsign, Hx; simplify_eq;
         by vm_compute
        |intros h Hh _;
         repeat (apply elem_of_cons in Hh as [->|Hh]; [by vm_compute|]);
         by apply elem_of_nil in Hh]|]);
     by apply elem_of_nil in Hv|]).
  by apply elem_of_nil in Hin.
Qed.

Lemma sample_quadrants_sizes (quadrant : Quadrant) (info : QuadrantInfo) :
  Sample.quadrants !! quadrant = Some info ->
  2 <= Z.of_nat (length quadrant) /\
  Forall (fun v : mpq_vector => 2 + 1 <= Z.of_nat (length v)) (V info).
Proof.
  intros Hin%sample_quadrants_inv.
  repeat (apply elem_of_cons in Hin as [[= -> ->]|Hin];
          [split; [simpl; lia | repeat constructor; simpl; lia]|]).
  by apply elem_of_nil in Hin.
Qed.

Lemma sample_run : fkrelu_quadrant2pdd (ext := Sample.collaborators) Sample.A2 2
                   = Ok Sample.quadrant2pdd.
Proof. by vm_compute. Qed.

Lemma rounded_run : fkrelu_quadrant2pdd (ext := Rounded.collaborators) Rounded.A2 2
                    = Ok Rounded.quadrant2pdd.
Proof. by vm_compute. Qed.

Lemma rounded_fkrelu : fkrelu (ext := Rounded.collaborators) Rounded.A2
                       = Ok (assemble Rounded.quadrant2pdd 2).
Proof. by vm_compute. Qed.

(** ** The theorems at the sample inputs *)

Lemma fkrelu_rejects_malformed_input_witness :
  (verify_fkrelu_input (ext := Sample.collaborators) Sample.A2_short = Ok () <->
   octahedral (ext := Sample.collaborators) Sample.A2_short) /\
  (~ octahedral (ext := Sample.collaborators) Sample.A2_short ->
   exists msg, msg ∈ malformed_input_messages /\
     fkrelu (ext := Sample.collaborators) Sample.A2_short = Err (AsrtfFailed msg)).
Proof.
  apply (fkrelu_rejects_malformed_input (ext := Sample.collaborators) Sample.A2_short).
  - split; [simpl; lia|]. repeat constructor.
  - exact sample_coefs_wf.
Defined.

Lemma empty_quadrant_is_recorded_witness :
  exists pdd,
    Sample.quadrant2pdd !! [MINUS; PLUS] = Some pdd /\
    pdd_dim pdd = 2 + 1 /\
    rows (pdd_V pdd) = 0 /\ cols (pdd_V pdd) = 2 + 1 /\
    rows (pdd_H pdd) = 0 /\ cols (pdd_H pdd) = 2 + 1 /\
    pdd_incidence pdd = [].
Proof.
  apply (empty_quadrant_is_recorded (ext := Sample.collaborators) Sample.A2 2
           Sample.octahedron Sample.quadrants Sample.quadrant2pdd
           [MINUS; PLUS] (Sample.info_of [])).
  - reflexivity.
  - reflexivity.
  - exact sample_run.
  - vm_compute. reflexivity.
  - reflexivity.
Defined.

Lemma halfspace_rows_of_quadrant_witness :
  let info := Sample.info_of [Sample.vertex 1 0; Sample.vertex 2 0;
                              Sample.vertex 1 1; Sample.vertex 2 1] in
  exists pdd incidence maximal_H,
    Sample.quadrant2pdd !! [PLUS; PLUS] = Some pdd /\
    transpose_incidence (V_to_H_incidence info) = Ok incidence /\
    compute_maximal_indexes (Collaborators := Sample.collaborators) incidence
      = Ok maximal_H /\
    rows (pdd_H pdd) = Z.of_nat (length maximal_H) /\
    cols (pdd_H pdd) = 2 + 1 /\
    forall (i : nat) (m : Z), maximal_H !! i = Some m ->
      exists h, coefficients (pdd_H pdd) !! i = Some h /\
        (m < rows Sample.A2 -> row Sample.A2 m = Ok h) /\
        (rows Sample.A2 <= m ->
         exists sign, at_ [PLUS; PLUS] (m - rows Sample.A2) = Ok sign /\
           Z.of_nat (length h) = 2 + 1 /\
           forall j : nat, Z.of_nat j < 2 + 1 ->
             h !! j = Some (if decide (Z.of_nat j = (m - rows Sample.A2) + 1)
                            then match sign with
                                 | MINUS => D.of_int (-1)
                                 | PLUS => D.of_int 1
                                 end
                            else D.of_int 0)).
Proof.
  apply (halfspace_rows_of_quadrant (ext := Sample.collaborators) Sample.A2 2
           Sample.octahedron Sample.quadrants Sample.quadrant2pdd [PLUS; PLUS]).
  - reflexivity.
  - reflexivity.
  - exact sample_run.
  - vm_compute. reflexivity.
  - simpl. discriminate.
Defined.

Lemma quadrant_vertices_satisfy_halfspaces_witness :
  let info := Sample.info_of [Sample.vertex 1 0; Sample.vertex 2 0;
                              Sample.vertex 1 1; Sample.vertex 2 1] in
  let h := [D.of_int 0; D.of_int 0; D.of_int 1] in
  (forall v, v ∈ V info -> length h = length v /\ (0 <= dot_exact h v)%Q) /\
  (forall v, v ∈ coefficients (pdd_V Sample.pdd_plus_plus) ->
     length h = length v /\
     Forall (fun x => D.is_finite x = true) v /\
     (0 <= dotQ h v)%Q).
Proof.
  intros info h.
  destruct (quadrant_vertices_satisfy_halfspaces (ext := Sample.collaborators)
              Sample.A2 2 Sample.octahedron Sample.quadrants Sample.quadrant2pdd
              eq_refl eq_refl sample_exact_vertices_ok sample_run
              [PLUS; PLUS] info Sample.pdd_plus_plus h) as [_ Hsat].
  - vm_compute. reflexivity.
  - vm_compute. reflexivity.
  - apply list_elem_of_In. vm_compute. tauto.
  - destruct Hsat as [Hexact Hstored].
    + by repeat constructor.
    + split; [exact Hexact|]. apply Hstored.
      repeat constructor; by vm_compute.
Defined.

(** The claim as it is stated, on the vertex rows that the PDD stores, fails
    where the conversion rounds: at [Rounded.A2] the exact vertices satisfy
    A and lie in their quadrant, [fkrelu] returns, and the stored vertex
    (1, 1, 2^-60) gives -2^-60 on the row (-1, 1, -1) that the PDD keeps. *)
Lemma rounded_vertex_violates_a_retained_row :
  ~ (forall (ext : Collaborators) (A M : MatrixXd) (oct : OctahedronV)
            (quadrant2info : gmap Quadrant QuadrantInfo)
            (quadrant2pdd : gmap Quadrant PDD),
       let K := to_int (cols A - 1) in
       fkrelu A = Ok M ->
       compute_octahedron_V A = Ok oct ->
       split_in_quadrants (oct_V oct) (oct_incidence oct)
                          (oct_orthant_adjacencies oct) K = Ok quadrant2info ->
       (forall quadrant info, quadrant2info !! quadrant = Some info ->
          exact_vertices_ok A K quadrant info) ->
       fkrelu_quadrant2pdd A K = Ok quadrant2pdd ->
       forall quadrant pdd v h,
         quadrant2pdd !! quadrant = Some pdd ->
         v ∈ coefficients (pdd_V pdd) ->
         h ∈ coefficients (pdd_H pdd) ->
         (0 <= dotQ h v)%Q).
Proof.
  intros Hsound.
  specialize (Hsound Rounded.collaborators Rounded.A2 _ Rounded.octahedron
                Rounded.quadrants Rounded.quadrant2pdd
                rounded_fkrelu eq_refl eq_refl rounded_exact_vertices_ok rounded_run
                [PLUS; PLUS] Rounded.pdd_plus_plus
                [D.of_int 1; D.of_int 1; Rounded.tiny]
                [D.of_int (-1); D.of_int 1; D.of_int (-1)]).
  apply Qle_bool_iff in Hsound.
  - by vm_compute in Hsound.
  - by vm_compute.
  - apply list_elem_of_In. vm_compute. tauto.
  - apply list_elem_of_In. vm_compute. tauto.
Qed.



Lemma cdd_generators_embed_vertices_witness :
  exists vertices blocks,
    cdd_generators 2 Sample.quadrants = Ok vertices /\
    colsize vertices = 2 * 2 + 1 /\
    representation vertices = dd_Generator /\
    rowsize vertices = Z.of_nat (length (matrix vertices)) /\
    matrix vertices = concat blocks /\
    Forall2 (fun entry block => Forall2 (embeds 2 entry.1) (V entry.2) block)
            (map_to_list Sample.quadrants) blocks.
Proof.
  apply (cdd_generators_embed_vertices 2 Sample.quadrants).
  - lia.
  - exact sample_quadrants_sizes.
Defined.

(** * Further properties of the translation unit *)

(** ** transpose_incidence *)

Lemma transposed_lookup (n : nat) (input : list bset) (c : nat) :
  (c < n)%nat ->
  transposed n input !! c = Some ((fun in_row => bset_test in_row c) <$> input).
Proof.
  intros Hc. unfold transposed. by rewrite list_lookup_fmap, lookup_seq_lt.
Qed.

Lemma length_transposed (n : nat) (input : list bset) : length (transposed n input) = n.
Proof. unfold transposed. by rewrite length_fmap, length_seq. Qed.

(** X1.  On a non-empty incidence whose bitsets all have size n,
    [transpose_incidence] returns n bitsets of the size of the input, and
    bit r of output bitset c is bit c of input bitset r. *)
Theorem transpose_incidence_swaps_bits (input : list bset) (n : nat) :
  input <> [] ->
  Forall (fun b => length b = n) input ->
  exists output,
    transpose_incidence input = Ok output /\
    length output = n /\
    Forall (fun b => length b = length input) output /\
    forall (r c : nat) (in_row : bset),
      input !! r = Some in_row -> (c < n)%nat ->
      exists out_col, output !! c = Some out_col /\ out_col !! r = in_row !! c.
Proof.
  intros Hne Hall. exists (transposed n input).
  split; [by apply transpose_incidence_transposed|].
  split; [apply length_transposed|]. split.
  - unfold transposed. apply Forall_fmap, Forall_forall. intros c _. simpl.
    by rewrite length_fmap.
  - intros r c in_row Hr Hc. eexists. split; [by apply transposed_lookup|].
    rewrite list_lookup_fmap, Hr. simpl. unfold bset_test.
    assert (length in_row = n) as Hlen by (eapply Forall_lookup_1 in Hall; eauto).
    destruct (lookup_lt_is_Some_2 in_row c ltac:(lia)) as [x ->]. done.
Qed.

Lemma transpose_incidence_swaps_bits_witness :
  exists output,
    transpose_incidence [[true; false; true]; [false; false; true]] = Ok output /\
    length output = 3%nat /\
    Forall (fun b => length b = length [[true; false; true]; [false; false; true]]) output /\
    forall (r c : nat) (in_row : bset),
      [[true; false; true]; [false; false; true]] !! r = Some in_row -> (c < 3)%nat ->
      exists out_col, output !! c = Some out_col /\ out_col !! r = in_row !! c.
Proof.
  apply (transpose_incidence_swaps_bits _ 3).
  - done.
  - repeat constructor.
Defined.

Lemma transpose_rows_outcome (n : nat) (input : list bset) :
  forall (row : nat) (output : list bset),
    (Forall (fun b => length b = n) input /\
     exists out, transpose_rows n row input output = Ok out) \/
    (~ Forall (fun b => length b = n) input /\
     transpose_rows n row input output =
       Err (AssertFailed "All incidences should be of the same size.")).
Proof.
  induction input as [|in_row rest IH]; intros row output.
  - left. split; [constructor | by eexists].
  - simpl. destruct (Nat.eqb_spec (length in_row) n) as [Hlen|Hlen]; simpl.
    + destruct (IH (S row) (transpose_row row in_row n output)) as [[Hall Hok]|[Hno Herr]].
      * left. split; [by constructor | done].
      * right. split; [|done]. by intros [_ ?]%Forall_cons.
    + right. split; [|done]. by intros [? _]%Forall_cons.
Qed.

(** X2.  The three outcomes of [transpose_incidence]: it raises on the empty
    list and only there; it returns exactly when the list is non-empty and
    all its bitsets have one size; it aborts on its assertion exactly when
    the list is non-empty and two bitsets differ in size. *)
Theorem transpose_incidence_outcome (input : list bset) :
  (transpose_incidence input =
     Err (AsrtfFailed "The function doesn't support empty input.") <-> input = []) /\
  ((exists output, transpose_incidence input = Ok output) <->
   input <> [] /\ exists n, Forall (fun b => length b = n) input) /\
  (transpose_incidence input =
     Err (AssertFailed "All incidences should be of the same size.") <->
   input <> [] /\ ~ exists n, Forall (fun b => length b = n) input).
Proof.
  destruct input as [|input0 rest].
  - split; [done|]. split.
    + split; [by intros [? ?] | by intros [? _]].
    + split; [done | by intros [? _]].
  - assert ((exists n, Forall (fun b => length b = n) (input0 :: rest)) <->
            Forall (fun b => length b = length input0) (input0 :: rest)) as Hsize.
    { split; [|by eexists]. intros [n Hn].
      by assert (length input0 = n) as -> by by inversion Hn. }
    change (transpose_incidence (input0 :: rest))
      with (transpose_rows (length input0) 0 (input0 :: rest)
              (replicate (length input0) (bset_zero (length (input0 :: rest))))).
    destruct (transpose_rows_outcome (length input0) (input0 :: rest) 0
                (replicate (length input0) (bset_zero (length (input0 :: rest)))))
      as [[Hall [out Hok]]|[Hno Herr]].
    + rewrite Hok. split; [done|]. split.
      * split; [intros _; split; [done | by apply Hsize] | by eexists].
      * split; [done|]. intros [_ Hn]. destruct Hn. by apply Hsize.
    + rewrite Herr. split; [done|]. split.
      * split; [by intros [? ?]|]. intros [_ Hn%Hsize]. done.
      * split; [|done]. intros _. split; [done|]. by intros Hn%Hsize.
Qed.

(** X3.  A non-empty incidence of empty bitsets is transposed to the empty
    list, which [transpose_incidence] then refuses: without columns there is
    no way back. *)
Theorem transpose_incidence_without_columns (input : list bset) :
  input <> [] ->
  Forall (fun b => b = []) input ->
  transpose_incidence input = Ok [] /\
  (output ← transpose_incidence input; transpose_incidence output) =
    Err (AsrtfFailed "The function doesn't support empty input.").
Proof.
  intros Hne Hempty.
  assert (transpose_incidence input = Ok []) as Hrun.
  { rewrite (transpose_incidence_transposed input 0); [done..|].
    eapply Forall_impl; [exact Hempty|]. by intros b ->. }
  split; [done|]. by rewrite Hrun.
Qed.

Lemma transpose_incidence_without_columns_witness :
  transpose_incidence [[]; []; []] = Ok [] /\
  (output ← transpose_incidence [[]; []; []]; transpose_incidence output) =
    Err (AsrtfFailed "The function doesn't support empty input.").
Proof.
  apply (transpose_incidence_without_columns [[]; []; []]).
  - done.
  - repeat constructor.
Defined.

Lemma sum_list_with_add {A} (f g : A -> nat) (l : list A) :
  sum_list_with (fun x => f x + g x)%nat l = (sum_list_with f l + sum_list_with g l)%nat.
Proof. induction l as [|x l IH]; simpl; [done|]. rewrite IH. lia. Qed.

Lemma sum_list_with_fmap {A B} (f : A -> B) (g : B -> nat) (l : list A) :
  sum_list_with g (f <$> l) = sum_list_with (fun x => g (f x)) l.
Proof. induction l as [|x l IH]; [done|]. rewrite fmap_cons. simpl. by rewrite IH. Qed.

Lemma popcount_transposed (n : nat) (input : list bset) :
  Forall (fun b => length b = n) input ->
  sum_list_with popcount (transposed n input) = sum_list_with popcount input.
Proof.
  unfold transposed. induction 1 as [|b rest Hb _ IH]; rewrite sum_list_with_fmap.
  - simpl. generalize (seq 0 n). intros l. by induction l.
  - rewrite sum_list_with_fmap in IH. cbn [sum_list_with]. rewrite <- IH.
    transitivity (sum_list_with Nat.b2n ((fun col => bset_test b col) <$> seq 0 n) +
                  sum_list_with
                    (fun x => popcount ((fun in_row : bset => bset_test in_row x) <$> rest))
                    (seq 0 n))%nat.
    + by rewrite sum_list_with_fmap, <- sum_list_with_add.
    + by rewrite <- Hb, bset_tests_all.
Qed.

(** X4.  Transposition keeps the number of incidences: the bits set in the
    result are as many as the bits set in the input. *)
Theorem transpose_incidence_keeps_popcount (input : list bset) (n : nat) :
  input <> [] ->
  Forall (fun b => length b = n) input ->
  exists output,
    transpose_incidence input = Ok output /\
    sum_list_with popcount output = sum_list_with popcount input.
Proof.
  intros Hne Hall. exists (transposed n input).
  split; [by apply transpose_incidence_transposed | by apply popcount_transposed].
Qed.

Lemma transpose_incidence_keeps_popcount_witness :
  exists output,
    transpose_incidence [[true; false; true]; [false; false; true]] = Ok output /\
    sum_list_with popcount output =
    sum_list_with popcount [[true; false; true]; [false; false; true]].
Proof.
  apply (transpose_incidence_keeps_popcount _ 3).
  - done.
  - repeat constructor.
Defined.

(** ** relu_1 *)

(** X5.  What a caller gets from [relu_1]: whenever it returns, the bounds
    straddle zero and the matrix is 3 x 3 with rows (0, 0, 1), (0, -1, 1) and
    (lmd, mu, -1) in which lmd and mu are strictly positive, hence never NaN,
    zero or negative. *)
Theorem relu_1_postcondition (lb ub : double) (M : MatrixXd) :
  relu_1 lb ub = Ok M ->
  (lb <? D.of_int 0)%D = true /\ (D.of_int 0 <? ub)%D = true /\
  exists lmd mu,
    M = Matrix 3 [ [D.of_int 0; D.of_int 0; D.of_int 1];
                   [D.of_int 0; D.of_int (-1); D.of_int 1];
                   [lmd; mu; D.of_int (-1)] ] /\
    (lmd >? D.of_int 0)%D = true /\ (mu >? D.of_int 0)%D = true /\
    lmd <> S754_nan /\ mu <> S754_nan.
Proof.
  intros HM. pose proof (relu_1_inv lb ub M HM) as ->.
  unfold relu_1, ASRTF, assert in HM.
  destruct (lb <=? ub)%D; [|done].
  destruct (lb <? D.of_int 0)%D; [|done].
  destruct (D.of_int 0 <? ub)%D; [|done].
  destruct (- lb * ub / (ub - lb) >? D.of_int 0)%D eqn:Hlmd; [|done].
  destruct (ub / (ub - lb) >? D.of_int 0)%D eqn:Hmu; [|done].
  split; [done|]. split; [done|]. eexists _, _. split; [reflexivity|].
  split; [done|]. split; [done|]. split.
  - intros Hnan. by rewrite Hnan in Hlmd.
  - intros Hnan. by rewrite Hnan in Hmu.
Qed.

Lemma relu_1_postcondition_witness :
  (D.of_int (-1) <? D.of_int 0)%D = true /\ (D.of_int 0 <? D.of_int 2)%D = true /\
  exists lmd mu,
    Matrix 3 [ [D.of_int 0; D.of_int 0; D.of_int 1];
               [D.of_int 0; D.of_int (-1); D.of_int 1];
               [(D.of_int 2 / D.of_int 3)%D; (D.of_int 2 / D.of_int 3)%D; D.of_int (-1)] ]
    = Matrix 3 [ [D.of_int 0; D.of_int 0; D.of_int 1];
                 [D.of_int 0; D.of_int (-1); D.of_int 1];
                 [lmd; mu; D.of_int (-1)] ] /\
    (lmd >? D.of_int 0)%D = true /\ (mu >? D.of_int 0)%D = true /\
    lmd <> S754_nan /\ mu <> S754_nan.
Proof.
  apply (relu_1_postcondition (D.of_int (-1)) (D.of_int 2)).
  vm_compute. reflexivity.
Defined.

(** X6.  Which check of [relu_1] speaks: the first message is raised exactly
    when lb <= ub is false, so whenever a bound is NaN; the second exactly
    when lb <= ub holds but lb < 0 < ub does not, so also for a bound equal
    to zero. *)
Theorem relu_1_messages (lb ub : double) :
  (relu_1 lb ub =
     Err (AsrtfFailed "Unsoundness - lower bound should be <= then upper bound.") <->
   (lb <=? ub)%D = false) /\
  (relu_1 lb ub = Err (AsrtfFailed "Expecting non-trivial input where lb < 0 < ub.") <->
   (lb <=? ub)%D = true /\
   ~ ((lb <? D.of_int 0)%D = true /\ (D.of_int 0 <? ub)%D = true)) /\
  (lb = S754_nan \/ ub = S754_nan ->
   relu_1 lb ub =
     Err (AsrtfFailed "Unsoundness - lower bound should be <= then upper bound.")) /\
  ((lb <=? ub)%D = true ->
   (lb == D.of_int 0)%D = true \/ (ub == D.of_int 0)%D = true ->
   relu_1 lb ub = Err (AsrtfFailed "Expecting non-trivial input where lb < 0 < ub.")).
Proof.
  assert (forall x, (x == D.of_int 0)%D = true ->
                    (x <? D.of_int 0)%D = false /\ (D.of_int 0 <? x)%D = false) as Hzero.
  { intros [[]|[]| |[] m e]; by cbv. }
  assert ((lb <=? ub)%D = true ->
          ~ ((lb <? D.of_int 0)%D = true /\ (D.of_int 0 <? ub)%D = true) ->
          relu_1 lb ub =
            Err (AsrtfFailed "Expecting non-trivial input where lb < 0 < ub.")) as Hsecond.
  { intros Hle Hsign. unfold relu_1, ASRTF. rewrite Hle. cbn [mbind result_bind].
    destruct (lb <? D.of_int 0)%D, (D.of_int 0 <? ub)%D; try done. by destruct Hsign. }
  split; [|split; [|split]].
  - unfold relu_1, ASRTF, assert.
    destruct (lb <=? ub)%D; cbn [mbind result_bind]; [|done].
    split; [|done]. intros Hrun. by repeat case_match.
  - split; [|by intros [? ?]; apply Hsecond].
    unfold relu_1, ASRTF, assert.
    destruct (lb <=? ub)%D; cbn [mbind result_bind]; [|done].
    destruct (lb <? D.of_int 0)%D, (D.of_int 0 <? ub)%D; cbn [andb mbind result_bind];
      try (intros _; split; [done | by intros [? ?]]).
    intros Hrun. by repeat case_match.
  - unfold relu_1, ASRTF. intros [-> | ->]; [done|].
    by destruct lb as [[]|[]| |[] m e].
  - intros Hle [H0|H0]; destruct (Hzero _ H0) as [H1 H2]; apply Hsecond; try done.
    + intros [Hlt _]. congruence.
    + intros [_ Hgt]. congruence.
Qed.

(** ** verify_fkrelu_input *)

Lemma for_each_ext {A} (l : list A) (f g : A -> result ()) :
  (forall x, x ∈ l -> f x = g x) -> for_each l f = for_each l g.
Proof.
  induction l as [|x l IH]; intros Hfg; simpl; [done|].
  rewrite (Hfg x) by left. rewrite IH; [done|]. intros y Hy. apply Hfg. by right.
Qed.

Lemma at_succ {A} (r : list A) (j : Z) : 0 <= j -> at_ r (j + 1) = at_ (drop 1 r) j.
Proof.
  intros Hj. unfold at_.
  destruct (Z.ltb_spec (j + 1) 0), (Z.ltb_spec j 0); try lia.
  rewrite lookup_drop. by replace (Z.to_nat (j + 1)) with (1 + Z.to_nat j)%nat by lia.
Qed.

Section VerifyProperties.
Context {ext : Collaborators}.

(** X7.  The verification never looks at the constant column: two matrices
    of the same width whose rows agree from column 1 on get the same
    verdict, whatever stands in column 0 (NaN and infinities included). *)
Theorem verify_fkrelu_input_ignores_constants (A A' : MatrixXd) :
  cols A = cols A' ->
  Forall2 (fun r r' => drop 1 r = drop 1 r') (coefficients A) (coefficients A') ->
  verify_fkrelu_input A = verify_fkrelu_input A'.
Proof.
  intros Hcols Hrows. unfold verify_fkrelu_input.
  assert (rows A = rows A') as Hn.
  { unfold rows. f_equal. by eapply Forall2_length. }
  rewrite <- Hcols, <- Hn.
  destruct (ASRTF _ "K should be within allowed range.") as [[]|]; [|done].
  destruct (ASRTF _ "Unexpected number of rows in the input.") as [[]|]; [|done].
  cbn [mbind result_bind].
  destruct (at_ K2OCTAHEDRON_COEFS (to_int (cols A - 1))) as [coefs|]; [|done].
  apply for_each_ext. intros i Hi%elem_of_seqZ.
  destruct (at_in_range (coefficients A) i) as [r Hr]; [unfold rows in Hi; lia|].
  pose proof Hr as [_ Hr']%at_Ok.
  destruct (Forall2_lookup_l _ _ _ _ _ Hrows Hr') as (r' & Hr'' & Htail).
  assert (at_ (coefficients A') i = Ok r') as Hr2 by (apply at_Ok; split; [lia | done]).
  unfold row. rewrite Hr, Hr2. cbn [mbind result_bind].
  destruct (at_ coefs i) as [coef_row|]; [|done]. cbn [mbind result_bind].
  apply for_each_ext. intros j Hj%elem_of_seqZ.
  by rewrite !at_succ, Htail by lia.
Qed.

Lemma verify_loop_failure (A : MatrixXd) (K : Z) (coefs : list (list Z)) (e : failure) :
  for_each (seqZ 0 (rows A)) (fun i =>
    row ← row A i;
    coef_row ← at_ coefs i;
    for_each (seqZ 0 K) (fun j =>
      x ← at_ row (j + 1);
      c ← at_ coef_row j;
      ASRTF (x == D.of_int c)%D "Input is not of correct format.")) = Err e ->
  e = OutOfRange \/ e = AsrtfFailed "Input is not of correct format.".
Proof.
  intros (i & _ & Hi)%for_each_Err.
  assert (forall {T} (v : list T) k e', at_ v k = Err e' -> e' = OutOfRange) as Hat.
  { intros T v k e'. unfold at_. by repeat case_match; intros [= <-]. }
  apply bind_Err in Hi as [Hi|(r & _ & Hi)]; [left; by eapply Hat|].
  apply bind_Err in Hi as [Hi|(coef_row & _ & Hi)]; [left; by eapply Hat|].
  apply for_each_Err in Hi as (j & _ & Hj).
  apply bind_Err in Hj as [Hj|(x & _ & Hj)]; [left; by eapply Hat|].
  apply bind_Err in Hj as [Hj|(c & _ & Hj)]; [left; by eapply Hat|].
  unfold ASRTF in Hj. destruct (x == D.of_int c)%D; [done|]. injection Hj as <-. by right.
Qed.

Lemma verify_fkrelu_input_stages (A : MatrixXd) :
  let K := to_int (cols A - 1) in
  (~ 1 <= K <= 4 /\
   verify_fkrelu_input A = Err (AsrtfFailed "K should be within allowed range.")) \/
  (1 <= K <= 4 /\ rows A <> 3 ^ K - 1 /\
   verify_fkrelu_input A = Err (AsrtfFailed "Unexpected number of rows in the input.")) \/
  (1 <= K <= 4 /\ rows A = 3 ^ K - 1 /\
   (verify_fkrelu_input A = Ok () \/
    verify_fkrelu_input A = Err OutOfRange \/
    verify_fkrelu_input A = Err (AsrtfFailed "Input is not of correct format."))).
Proof.
  intros K. unfold verify_fkrelu_input. fold K.
  destruct (Z.leb_spec 1 K), (Z.leb_spec K 4); cbn [andb];
    try (left; split; [lia | reflexivity]).
  right. change (ASRTF true "K should be within allowed range.") with (Ok ()).
  rewrite Ok_bind. unfold POW3.
  destruct (Z.eqb_spec (rows A) (3 ^ K - 1)) as [Hrows|Hrows].
  - right. split; [lia|]. split; [done|].
    change (ASRTF true "Unexpected number of rows in the input.") with (Ok ()).
    rewrite Ok_bind.
    destruct (at_ K2OCTAHEDRON_COEFS K) as [coefs|e] eqn:Hcoefs.
    + rewrite Ok_bind. destruct (for_each _ _) as [[]|e] eqn:Hloop; [by left|].
      right. by destruct (verify_loop_failure A K coefs e Hloop) as [-> | ->]; [left|right].
    + right. left. unfold at_ in Hcoefs. by repeat case_match; simplify_eq.
  - left. split; [lia|]. split; [done|]. reflexivity.
Qed.

(** X8.  Which check of [verify_fkrelu_input] speaks, for a matrix and a
    complete table: the first message exactly when K is outside [1, 4]; the
    second exactly when K is in range and the row count is not 3^K - 1; the
    third exactly when K and the row count are right and some coefficient
    differs from the table. *)
Theorem verify_fkrelu_input_messages (A : MatrixXd) :
  wf_matrix A -> coefs_wf ->
  let K := to_int (cols A - 1) in
  (verify_fkrelu_input A = Err (AsrtfFailed "K should be within allowed range.") <->
   ~ 1 <= K <= 4) /\
  (verify_fkrelu_input A = Err (AsrtfFailed "Unexpected number of rows in the input.") <->
   1 <= K <= 4 /\ rows A <> 3 ^ K - 1) /\
  (verify_fkrelu_input A = Err (AsrtfFailed "Input is not of correct format.") <->
   1 <= K <= 4 /\ rows A = 3 ^ K - 1 /\ ~ octahedral A).
Proof.
  intros HA Htable K.
  pose proof (verify_fkrelu_input_Ok A) as Hok.
  pose proof (octahedral_verify_fkrelu_input A) as Hoct.
  destruct (verify_fkrelu_input_stages A)
    as [[HK Hv]|[(HK & Hrows & Hv)|(HK & Hrows & [Hv|[Hv|Hv]])]];
    fold K in HK; try fold K in Hrows; rewrite Hv in *.
  - split; [done|]. split; (split; [done | intros [? _]; lia]).
  - split; [split; [done | lia]|]. split; [done|].
    split; [done | by intros (_ & ? & _)].
  - split; [split; [done | lia]|]. split; [split; [done | by intros [_ ?]]|].
    split; [done|]. intros (_ & _ & Hno). by destruct Hno, Hok.
  - destruct (verify_fkrelu_input_cases A HA Htable) as [Hc|(msg & _ & Hc)];
      rewrite Hv in Hc; done.
  - split; [split; [done | lia]|]. split; [split; [done | by intros [_ ?]]|].
    split; [|done]. intros _. split; [lia|]. split; [done|].
    intros Hyes. by specialize (Hoct Hyes).
Qed.

End VerifyProperties.

Lemma verify_fkrelu_input_ignores_constants_witness :
  verify_fkrelu_input (ext := Sample.collaborators) Sample.A1 =
  verify_fkrelu_input (ext := Sample.collaborators)
    (Matrix 2 [ [S754_nan; D.of_int 1]; [S754_infinity true; D.of_int (-1)] ]).
Proof.
  apply (verify_fkrelu_input_ignores_constants (ext := Sample.collaborators)).
  - reflexivity.
  - repeat constructor.
Defined.

Lemma verify_fkrelu_input_messages_witness :
  let K := to_int (cols Sample.A2_short - 1) in
  (verify_fkrelu_input (ext := Sample.collaborators) Sample.A2_short =
     Err (AsrtfFailed "K should be within allowed range.") <->
   ~ 1 <= K <= 4) /\
  (verify_fkrelu_input (ext := Sample.collaborators) Sample.A2_short =
     Err (AsrtfFailed "Unexpected number of rows in the input.") <->
   1 <= K <= 4 /\ rows Sample.A2_short <> 3 ^ K - 1) /\
  (verify_fkrelu_input (ext := Sample.collaborators) Sample.A2_short =
     Err (AsrtfFailed "Input is not of correct format.") <->
   1 <= K <= 4 /\ rows Sample.A2_short = 3 ^ K - 1 /\
   ~ octahedral (ext := Sample.collaborators) Sample.A2_short).
Proof.
  apply (verify_fkrelu_input_messages (ext := Sample.collaborators) Sample.A2_short).
  - split; [simpl; lia|]. repeat constructor.
  - exact sample_coefs_wf.
Defined.

(** ** fkrelu for K = 1 *)

Lemma verify_fkrelu_input_table (ext1 ext2 : Collaborators) (A : MatrixXd) :
  @K2OCTAHEDRON_COEFS ext1 = @K2OCTAHEDRON_COEFS ext2 ->
  verify_fkrelu_input (ext := ext1) A = verify_fkrelu_input (ext := ext2) A.
Proof. intros Htable. unfold verify_fkrelu_input. by rewrite Htable. Qed.

(** X9.  For K = 1 [fkrelu] reaches none of the collaborators: with the same
    coefficient table, its outcome is the same whatever the vertex
    enumeration, the splitter, the conversions and the decomposition do. *)
Theorem fkrelu_K1_bypasses_the_pipeline (ext1 ext2 : Collaborators) (A : MatrixXd) :
  @K2OCTAHEDRON_COEFS ext1 = @K2OCTAHEDRON_COEFS ext2 ->
  to_int (cols A - 1) = 1 ->
  fkrelu (ext := ext1) A = fkrelu (ext := ext2) A.
Proof.
  intros Htable HK. unfold fkrelu.
  rewrite (verify_fkrelu_input_table ext1 ext2 A Htable), HK. reflexivity.
Qed.

Lemma fkrelu_K1_bypasses_the_pipeline_witness :
  fkrelu (ext := Sample.collaborators) Sample.A1 =
  fkrelu (ext := no_collaborators) Sample.A1.
Proof.
  apply (fkrelu_K1_bypasses_the_pipeline Sample.collaborators no_collaborators Sample.A1).
  - reflexivity.
  - reflexivity.
Defined.

Lemma neg_below_zero (x : double) : (- x <? D.of_int 0)%D = (D.of_int 0 <? x)%D.
Proof. by destruct x as [[]|[]| |[] m e]. Qed.

Section FkreluK1.
Context {ext : Collaborators}.

(** X10.  On an accepted input with K = 1, [fkrelu] raises exactly when the
    constants A(0,0) and A(1,0) are not both strictly positive, that is when
    the interval [-A(0,0), A(1,0)] does not straddle zero; a returned matrix
    means both are positive. *)
Theorem fkrelu_K1_wants_positive_constants (A : MatrixXd) :
  verify_fkrelu_input A = Ok () ->
  to_int (cols A - 1) = 1 ->
  exists a00 a10,
    coeff A 0 0 = Ok a00 /\ coeff A 1 0 = Ok a10 /\
    ((exists msg, fkrelu A = Err (AsrtfFailed msg)) <->
     ~ ((D.of_int 0 <? a00)%D = true /\ (D.of_int 0 <? a10)%D = true)) /\
    (forall M, fkrelu A = Ok M ->
       (D.of_int 0 <? a00)%D = true /\ (D.of_int 0 <? a10)%D = true).
Proof.
  intros Hv HK.
  destruct (fkrelu_is_relu_1 A HK Hv) as (a00 & a10 & H00 & H10 & Hrun).
  exists a00, a10. split; [done|]. split; [done|]. rewrite Hrun.
  assert ((exists msg, relu_1 (- a00)%D a10 = Err (AsrtfFailed msg)) <->
          ~ ((D.of_int 0 <? a00)%D = true /\ (D.of_int 0 <? a10)%D = true)) as Hraise.
  { rewrite relu_1_raises_iff, neg_below_zero. split.
    - intros [Hgt|Hno]; [|done]. intros [Hlb Hub].
      rewrite <- neg_below_zero in Hlb.
      destruct (sign_conditions_order _ _ Hlb Hub) as [_ Hle]. congruence.
    - intros Hno. by right. }
  split; [done|]. intros M HM.
  destruct (D.of_int 0 <? a00)%D eqn:Hlb, (D.of_int 0 <? a10)%D eqn:Hub; try done;
    (destruct (proj2 Hraise) as [msg Hmsg]; [by intros [? ?] | congruence]).
Qed.

End FkreluK1.

Lemma fkrelu_K1_wants_positive_constants_witness :
  exists a00 a10,
    coeff Sample.A1 0 0 = Ok a00 /\ coeff Sample.A1 1 0 = Ok a10 /\
    ((exists msg, fkrelu (ext := Sample.collaborators) Sample.A1 = Err (AsrtfFailed msg)) <->
     ~ ((D.of_int 0 <? a00)%D = true /\ (D.of_int 0 <? a10)%D = true)) /\
    (forall M, fkrelu (ext := Sample.collaborators) Sample.A1 = Ok M ->
       (D.of_int 0 <? a00)%D = true /\ (D.of_int 0 <? a10)%D = true).
Proof.
  apply (fkrelu_K1_wants_positive_constants (ext := Sample.collaborators) Sample.A1).
  - reflexivity.
  - reflexivity.
Defined.

(** ** The loop of fkrelu over the quadrants *)

Lemma transpose_incidence_Ok_inv (input output : list bset) :
  transpose_incidence input = Ok output ->
  exists n, input <> [] /\ Forall (fun b => length b = n) input /\
            output = transposed n input.
Proof.
  intros Hrun. destruct input as [|input0 rest]; [done|].
  exists (length input0). split; [done|].
  assert (transpose_incidence (input0 :: rest) =
          transpose_rows (length input0) 0 (input0 :: rest)
            (replicate (length input0) (bset_zero (length (input0 :: rest)))))
    as Hunfold by reflexivity.
  destruct (transpose_rows_outcome (length input0) (input0 :: rest) 0
              (replicate (length input0) (bset_zero (length (input0 :: rest)))))
    as [[Hall _]|[_ Herr]]; [|congruence].
  split; [done|].
  rewrite (transpose_incidence_transposed (input0 :: rest) (length input0)) in Hrun by done.
  by injection Hrun as <-.
Qed.

Lemma collect_Err {A B} (l : list A) (body : A -> result B) (e : failure) :
  collect l body = Err e -> exists x, x ∈ l /\ body x = Err e.
Proof.
  induction l as [|x l IH]; simpl; [done|].
  intros [Hx|(y & _ & Hrest)]%bind_Err.
  - exists x. split; [left | done].
  - apply bind_Err in Hrest as [Hrest|(ys & _ & [=])].
    destruct (IH Hrest) as (x' & ? & ?). exists x'. split; [by right | done].
Qed.

Section QuadrantLoop.
Context {ext : Collaborators}.

Lemma fill_quadrant2pdd_total (A : MatrixXd) (K : Z)
    (entries : list (Quadrant * QuadrantInfo)) (acc : gmap Quadrant PDD) :
  (forall quadrant info, (quadrant, info) ∈ entries ->
     exists pdd, quadrant_pdd A K quadrant info = Ok pdd) ->
  exists quadrant2pdd, fill_quadrant2pdd A K entries acc = Ok quadrant2pdd.
Proof.
  revert acc. induction entries as [|[q info] rest IH]; intros acc Hall; simpl.
  - by eexists.
  - destruct (Hall q info) as [pdd ->]; [left|]. rewrite Ok_bind.
    apply IH. intros q' info' Hin. apply Hall. by right.
Qed.

Lemma fill_quadrant2pdd_Err (A : MatrixXd) (K : Z)
    (entries : list (Quadrant * QuadrantInfo)) (acc : gmap Quadrant PDD) (e : failure) :
  fill_quadrant2pdd A K entries acc = Err e ->
  exists quadrant info, (quadrant, info) ∈ entries /\
                        quadrant_pdd A K quadrant info = Err e.
Proof.
  revert acc. induction entries as [|[q info] rest IH]; intros acc; simpl; [done|].
  intros [Hq|(pdd & _ & Hrest)]%bind_Err.
  - exists q, info. split; [left | done].
  - destruct (IH _ Hrest) as (q' & info' & ? & ?). exists q', info'.
    split; [by right | done].
Qed.

(** X11.  The map of PDDs has exactly the quadrants of [quadrant2info]: the
    loop drops none and adds none. *)
Theorem quadrant2pdd_has_the_same_quadrants (A : MatrixXd) (K : Z) (oct : OctahedronV)
    (quadrant2info : gmap Quadrant QuadrantInfo)
    (quadrant2pdd : gmap Quadrant PDD) :
  compute_octahedron_V A = Ok oct ->
  split_in_quadrants (oct_V oct) (oct_incidence oct)
                     (oct_orthant_adjacencies oct) K = Ok quadrant2info ->
  fkrelu_quadrant2pdd A K = Ok quadrant2pdd ->
  dom quadrant2pdd = dom quadrant2info.
Proof.
  intros Hoct Hsplit Hrun. apply set_eq. intros q. rewrite !elem_of_dom.
  pose proof (quadrant2pdd_of_quadrant2info A K _ _ _ Hoct Hsplit Hrun q) as Hq.
  destruct (quadrant2info !! q) as [info|].
  - destruct Hq as (pdd & _ & ->). by split.
  - rewrite Hq. by split; intros [? ?].
Qed.

(** X12.  The loop is all or nothing: it ends with a map exactly when the
    body succeeds on every quadrant of [quadrant2info], and when it fails,
    the failure is that of the body on one of the quadrants. *)
Theorem quadrant_loop_all_or_nothing (A : MatrixXd) (K : Z) (oct : OctahedronV)
    (quadrant2info : gmap Quadrant QuadrantInfo) :
  compute_octahedron_V A = Ok oct ->
  split_in_quadrants (oct_V oct) (oct_incidence oct)
                     (oct_orthant_adjacencies oct) K = Ok quadrant2info ->
  ((exists quadrant2pdd, fkrelu_quadrant2pdd A K = Ok quadrant2pdd) <->
   forall quadrant info, quadrant2info !! quadrant = Some info ->
     exists pdd, quadrant_pdd A K quadrant info = Ok pdd) /\
  (forall e, fkrelu_quadrant2pdd A K = Err e ->
     exists quadrant info, quadrant2info !! quadrant = Some info /\
                           quadrant_pdd A K quadrant info = Err e).
Proof.
  intros Hoct Hsplit. split; [split|].
  - intros [q2p Hrun] q info Hq.
    pose proof (quadrant2pdd_of_quadrant2info A K _ _ _ Hoct Hsplit Hrun q) as Hall.
    rewrite Hq in Hall. destruct Hall as (pdd & ? & _). by exists pdd.
  - intros Hall. unfold fkrelu_quadrant2pdd. rewrite Hoct, Ok_bind, Hsplit, Ok_bind.
    apply fill_quadrant2pdd_total. intros q info Hin%elem_of_map_to_list. by eapply Hall.
  - intros e. unfold fkrelu_quadrant2pdd. rewrite Hoct, Ok_bind, Hsplit, Ok_bind.
    intros (q & info & Hin%elem_of_map_to_list & Herr)%fill_quadrant2pdd_Err.
    by exists q, info.
Qed.

Lemma quadrant_pdd_sizes (A : MatrixXd) (K : Z) (quadrant : Quadrant)
    (info : QuadrantInfo) (pdd : PDD) :
  V info <> [] ->
  quadrant_pdd A K quadrant info = Ok pdd ->
  exists Vd incidence maximal_H built,
    mpq_convert2eigen (K + 1) (V info) = Ok Vd /\
    Z.of_nat (length (V_to_H_incidence info)) = rows Vd /\
    transpose_incidence (V_to_H_incidence info) = Ok incidence /\
    Z.of_nat (length incidence) = rows A + K /\
    compute_maximal_indexes incidence = Ok maximal_H /\
    Forall2 (fun maximal hb =>
               halfspace_of_maximal A K quadrant incidence maximal = Ok hb)
            maximal_H built /\
    pdd = {| pdd_dim := K + 1; pdd_V := Vd; pdd_H := Matrix (K + 1) (built.*1);
             pdd_incidence := built.*2 |}.
Proof.
  intros Hne. unfold quadrant_pdd. rewrite bool_decide_eq_false_2 by done.
  intros Hrun.
  apply bind_Ok in Hrun as (Vd & HVd & Hrun).
  apply bind_Ok in Hrun as ([] & Hsize1%assert_Ok%Z.eqb_eq & Hrun).
  apply bind_Ok in Hrun as (incidence & Hinc & Hrun).
  apply bind_Ok in Hrun as ([] & Hsize2%assert_Ok%Z.eqb_eq & Hrun).
  apply bind_Ok in Hrun as (maximal_H & Hmax & Hrun).
  apply bind_Ok in Hrun as (built & Hbuilt%collect_Ok & [= <-]).
  by exists Vd, incidence, maximal_H, built.
Qed.

(** X13.  The shape of every PDD that the loop stores: its dimension is
    K + 1, its incidence has one bitset per row of H, and every one of these
    bitsets has one bit per row of V. *)
Theorem quadrant_pdd_incidence_shape (A : MatrixXd) (K : Z) (oct : OctahedronV)
    (quadrant2info : gmap Quadrant QuadrantInfo)
    (quadrant2pdd : gmap Quadrant PDD) (quadrant : Quadrant) (pdd : PDD) :
  compute_octahedron_V A = Ok oct ->
  split_in_quadrants (oct_V oct) (oct_incidence oct)
                     (oct_orthant_adjacencies oct) K = Ok quadrant2info ->
  fkrelu_quadrant2pdd A K = Ok quadrant2pdd ->
  quadrant2pdd !! quadrant = Some pdd ->
  pdd_dim pdd = K + 1 /\
  Z.of_nat (length (pdd_incidence pdd)) = rows (pdd_H pdd) /\
  Forall (fun b : bset => Z.of_nat (length b) = rows (pdd_V pdd)) (pdd_incidence pdd).
Proof.
  intros Hoct Hsplit Hrun Hq.
  pose proof (quadrant2pdd_of_quadrant2info A K _ _ _ Hoct Hsplit Hrun quadrant) as Hall.
  destruct (quadrant2info !! quadrant) as [info|]; [|congruence].
  destruct Hall as (pdd' & Hpdd & Hq'). rewrite Hq in Hq'. injection Hq' as <-.
  destruct (decide (V info = [])) as [Hempty|Hne].
  { destruct info as [vs inc]. simpl in Hempty. subst vs.
    rewrite quadrant_pdd_empty in Hpdd. injection Hpdd as <-. by repeat split. }
  destruct (quadrant_pdd_sizes A K quadrant info pdd Hne Hpdd)
    as (Vd & incidence & maximal_H & built & _ & Hsize & Hinc & _ & _ & Hbuilt & ->).
  simpl. split; [done|]. split.
  { unfold rows. simpl. by rewrite !length_fmap. }
  apply transpose_incidence_Ok_inv in Hinc as (n & _ & _ & ->).
  apply Forall_fmap, Forall_forall. intros [h b] Hin. simpl.
  apply list_elem_of_lookup in Hin as [i Hi].
  destruct (Forall2_lookup_r _ _ _ _ _ Hbuilt Hi) as (m & _ & Hrow).
  apply halfspace_of_maximal_Ok in Hrow as [[_ Hb]%at_Ok _].
  unfold transposed in Hb. rewrite list_lookup_fmap in Hb.
  destruct (seq 0 n !! Z.to_nat m); [|done]. injection Hb as <-.
  by rewrite length_fmap.
Qed.

(** X14.  The incidence stored with H is the input incidence read the other
    way round: bit v of the bitset kept for row i of H is bit maximal_H[i]
    of the bitset of vertex v. *)
Theorem quadrant_pdd_incidence_bits (A : MatrixXd) (K : Z) (oct : OctahedronV)
    (quadrant2info : gmap Quadrant QuadrantInfo)
    (quadrant2pdd : gmap Quadrant PDD)
    (quadrant : Quadrant) (info : QuadrantInfo) :
  compute_octahedron_V A = Ok oct ->
  split_in_quadrants (oct_V oct) (oct_incidence oct)
                     (oct_orthant_adjacencies oct) K = Ok quadrant2info ->
  fkrelu_quadrant2pdd A K = Ok quadrant2pdd ->
  quadrant2info !! quadrant = Some info ->
  V info <> [] ->
  exists pdd incidence maximal_H,
    quadrant2pdd !! quadrant = Some pdd /\
    transpose_incidence (V_to_H_incidence info) = Ok incidence /\
    compute_maximal_indexes incidence = Ok maximal_H /\
    forall (i : nat) (m : Z), maximal_H !! i = Some m ->
      exists b : bset, pdd_incidence pdd !! i = Some b /\
        forall (v : nat) (bits : bset), V_to_H_incidence info !! v = Some bits ->
          b !! v = bits !! Z.to_nat m.
Proof.
  intros Hoct Hsplit Hrun Hq Hne.
  pose proof (quadrant2pdd_of_quadrant2info A K _ _ _ Hoct Hsplit Hrun quadrant) as Hall.
  rewrite Hq in Hall. destruct Hall as (pdd & Hpdd & Hlookup).
  destruct (quadrant_pdd_sizes A K quadrant info pdd Hne Hpdd)
    as (Vd & incidence & maximal_H & built & _ & _ & Hinc & _ & Hmax & Hbuilt & ->).
  eexists. exists incidence, maximal_H.
  split; [exact Hlookup|]. split; [done|]. split; [done|].
  intros i m Hm. simpl.
  destruct (Forall2_lookup_l _ _ _ _ _ Hbuilt Hm) as ([h b] & Hhb & Hrow).
  exists b. split; [by rewrite list_lookup_fmap, Hhb|].
  apply halfspace_of_maximal_Ok in Hrow as [[_ Hb]%at_Ok _].
  apply transpose_incidence_Ok_inv in Hinc as (n & _ & Hall & ->).
  unfold transposed in Hb. rewrite list_lookup_fmap in Hb.
  destruct (seq 0 n !! Z.to_nat m) as [c|] eqn:Hc; [|done].
  apply lookup_seq in Hc as [-> Hlt]. injection Hb as <-.
  intros v bits Hbits. rewrite list_lookup_fmap, Hbits. simpl. unfold bset_test.
  assert (length bits = n) as Hlen by (eapply Forall_lookup_1 in Hall; eauto).
  destruct (lookup_lt_is_Some_2 bits (Z.to_nat m) ltac:(lia)) as [x ->]. done.
Qed.

(** X15.  Once the transposed incidence has A.rows() + K bitsets, which the
    loop asserts, the range check on xi cannot fail, whatever the list of
    maximal indexes: an index beyond A.rows() + K is stopped earlier, as an
    access outside the incidence. *)
Theorem xi_range_check_cannot_fail (A : MatrixXd) (K : Z) (quadrant : Quadrant)
    (incidence : list bset) (maximal_H : list Z) :
  Z.of_nat (length incidence) = rows A + K ->
  collect maximal_H (halfspace_of_maximal A K quadrant incidence) <>
    Err (AssertFailed "Sanity checking the range of xi.").
Proof.
  intros Hsize (m & _ & Hrun)%collect_Err. revert Hrun.
  unfold halfspace_of_maximal.
  destruct (at_ incidence m) as [b|e'] eqn:Hb; rewrite ?Ok_bind.
  2: { unfold at_ in Hb. by repeat case_match; simplify_eq. }
  apply at_Ok in Hb as [Hm0 Hm%lookup_lt_Some].
  destruct (Z.ltb_spec m (rows A)) as [Hlt|Hge].
  - destruct (at_in_range (coefficients A) m) as [h Hh]; [unfold rows in Hlt; lia|].
    unfold row. rewrite Hh, Ok_bind. unfold assert.
    by destruct (Z.of_nat (length h) =? K + 1).
  - unfold assert.
    destruct (Z.leb_spec 0 (m - rows A)), (Z.ltb_spec (m - rows A) K); try lia.
    cbn [andb]. rewrite Ok_bind.
    destruct (at_ quadrant (m - rows A)) as [sign|e'] eqn:Hsign.
    + rewrite Ok_bind. by case_bool_decide.
    + unfold at_ in Hsign. by repeat case_match; simplify_eq.
Qed.

End QuadrantLoop.

Lemma quadrant2pdd_has_the_same_quadrants_witness :
  dom Sample.quadrant2pdd = dom Sample.quadrants.
Proof.
  apply (quadrant2pdd_has_the_same_quadrants (ext := Sample.collaborators) Sample.A2 2
           Sample.octahedron Sample.quadrants Sample.quadrant2pdd).
  - reflexivity.
  - reflexivity.
  - exact sample_run.
Defined.

Lemma quadrant_loop_all_or_nothing_witness :
  ((exists quadrant2pdd,
      fkrelu_quadrant2pdd (ext := Sample.collaborators) Sample.A2 2 = Ok quadrant2pdd) <->
   forall quadrant info, Sample.quadrants !! quadrant = Some info ->
     exists pdd,
       quadrant_pdd (ext := Sample.collaborators) Sample.A2 2 quadrant info = Ok pdd) /\
  (forall e, fkrelu_quadrant2pdd (ext := Sample.collaborators) Sample.A2 2 = Err e ->
     exists quadrant info, Sample.quadrants !! quadrant = Some info /\
       quadrant_pdd (ext := Sample.collaborators) Sample.A2 2 quadrant info = Err e).
Proof.
  apply (quadrant_loop_all_or_nothing (ext := Sample.collaborators) Sample.A2 2
           Sample.octahedron Sample.quadrants).
  - reflexivity.
  - reflexivity.
Defined.

Lemma quadrant_pdd_incidence_shape_witness :
  pdd_dim Sample.pdd_plus_plus = 2 + 1 /\
  Z.of_nat (length (pdd_incidence Sample.pdd_plus_plus)) = rows (pdd_H Sample.pdd_plus_plus) /\
  Forall (fun b : bset => Z.of_nat (length b) = rows (pdd_V Sample.pdd_plus_plus))
         (pdd_incidence Sample.pdd_plus_plus).
Proof.
  apply (quadrant_pdd_incidence_shape (ext := Sample.collaborators) Sample.A2 2
           Sample.octahedron Sample.quadrants Sample.quadrant2pdd [PLUS; PLUS]).
  - reflexivity.
  - reflexivity.
  - exact sample_run.
  - vm_compute. reflexivity.
Defined.

Lemma quadrant_pdd_incidence_bits_witness :
  let info := Sample.info_of [Sample.vertex 1 (-1); Sample.vertex 2 (-1);
                              Sample.vertex 1 0; Sample.vertex 2 0] in
  exists pdd incidence maximal_H,
    Sample.quadrant2pdd !! [PLUS; MINUS] = Some pdd /\
    transpose_incidence (V_to_H_incidence info) = Ok incidence /\
    compute_maximal_indexes (Collaborators := Sample.collaborators) incidence
      = Ok maximal_H /\
    forall (i : nat) (m : Z), maximal_H !! i = Some m ->
      exists b : bset, pdd_incidence pdd !! i = Some b /\
        forall (v : nat) (bits : bset), V_to_H_incidence info !! v = Some bits ->
          b !! v = bits !! Z.to_nat m.
Proof.
  apply (quadrant_pdd_incidence_bits (ext := Sample.collaborators) Sample.A2 2
           Sample.octahedron Sample.quadrants Sample.quadrant2pdd [PLUS; MINUS]).
  - reflexivity.
  - reflexivity.
  - exact sample_run.
  - vm_compute. reflexivity.
  - simpl. discriminate.
Defined.

Lemma xi_range_check_cannot_fail_witness :
  Z.of_nat (length [[true; false]; [false; true]; [true; true]]) = rows Sample.A1 + 1 /\
  collect [2; 0; 7]
    (halfspace_of_maximal Sample.A1 1 [PLUS]
       [[true; false]; [false; true]; [true; true]]) <>
    Err (AssertFailed "Sanity checking the range of xi.").
Proof.
  split; [reflexivity|].
  apply (xi_range_check_cannot_fail Sample.A1 1 [PLUS]
           [[true; false]; [false; true]; [true; true]] [2; 0; 7]).
  reflexivity.
Defined.

(** ** The generator matrix of krelu_with_cdd *)

Lemma at_Err {A} (v : list A) (i : Z) (e : failure) :
  at_ v i = Err e -> e = OutOfRange.
Proof. unfold at_. intros Hrun. by repeat case_match; simplify_eq. Qed.

Lemma set_at_Err {A} (v : list A) (i : Z) (x : A) (e : failure) :
  set_at v i x = Err e -> e = OutOfRange.
Proof. unfold set_at. by case_match; intros [=]. Qed.

Lemma loop_Ok_inv {A S} (l : list A) (body : S -> A -> result S) (s s' : S) :
  loop l body s = Ok s' -> forall x, x ∈ l -> exists s1 s2, body s1 x = Ok s2.
Proof.
  revert s. induction l as [|y l IH]; intros s; cbn [loop].
  - intros _ x Hx. by apply elem_of_nil in Hx.
  - intros (s1 & Hy & Hrest)%bind_Ok x [->|Hx]%elem_of_cons.
    + by exists s, s1.
    + by eapply IH.
Qed.

Lemma loop_Err_inv {A S} (l : list A) (body : S -> A -> result S) (s : S)
    (e : failure) :
  loop l body s = Err e -> exists x s1, x ∈ l /\ body s1 x = Err e.
Proof.
  revert s. induction l as [|y l IH]; intros s; cbn [loop]; [done|].
  intros [Hy|(s1 & _ & Hrest)]%bind_Err.
  - exists y, s. split; [left | done].
  - destruct (IH _ Hrest) as (x & s2 & ? & ?). exists x, s2. split; [by right | done].
Qed.

Lemma project_vertex_Err (K : Z) (quadrant : Quadrant) (v p : mpq_vector)
    (e : failure) :
  project_vertex K quadrant v p = Err e -> e = OutOfRange.
Proof.
  unfold project_vertex. intros [Hrun|(p1 & _ & Hrun)]%bind_Err;
    apply loop_Err_inv in Hrun as (i & s1 & _ & Hrun).
  - by apply bind_Err in Hrun as [Hrun%at_Err|(x & _ & Hrun%set_at_Err)].
  - apply bind_Err in Hrun as [Hrun%at_Err|(sign & _ & Hrun)]; [done|].
    case_bool_decide; [|done].
    by apply bind_Err in Hrun as [Hrun%at_Err|(x & _ & Hrun%set_at_Err)].
Qed.

Lemma project_quadrant_Err (K : Z) (state : Z * list mpq_vector)
    (entry : Quadrant * QuadrantInfo) (e : failure) :
  project_quadrant K state entry = Err e -> e = OutOfRange.
Proof.
  destruct entry as [q info]. unfold project_quadrant.
  intros (v & [c rows] & _ & Hrun)%loop_Err_inv.
  apply bind_Err in Hrun as [Hrun%at_Err|(p & _ & Hrun)]; [done|].
  apply bind_Err in Hrun as [Hrun%project_vertex_Err|(p' & _ & Hrun)]; [done|].
  by apply bind_Err in Hrun as [Hrun%set_at_Err|(r & _ & Hrun)].
Qed.

Lemma project_quadrant_counter (K : Z) (quadrant : Quadrant) (info : QuadrantInfo)
    (c c' : Z) (rows rows' : list mpq_vector) :
  project_quadrant K (c, rows) (quadrant, info) = Ok (c', rows') ->
  c' = c + Z.of_nat (length (V info)).
Proof.
  unfold project_quadrant. generalize (V info) as vs. intros vs.
  revert c rows. induction vs as [|v vs IH]; intros c rows; cbn [loop length].
  - intros [= <- _]. lia.
  - intros ([c1 rows1] & Hstep & Hrest)%bind_Ok.
    apply bind_Ok in Hstep as (p & _ & Hstep).
    apply bind_Ok in Hstep as (p' & _ & Hstep).
    apply bind_Ok in Hstep as (r & _ & [= <- _]).
    apply IH in Hrest. lia.
Qed.

Lemma project_entries_counter (K : Z) (entries : list (Quadrant * QuadrantInfo))
    (c c' : Z) (rows rows' : list mpq_vector) :
  loop entries (project_quadrant K) (c, rows) = Ok (c', rows') ->
  c' = foldl (fun n entry => n + Z.of_nat (length (V entry.2))) c entries.
Proof.
  revert c rows. induction entries as [|[q info] entries IH]; intros c rows;
    cbn [loop foldl].
  - by intros [= <- _].
  - intros ([c1 rows1] & Hstep%project_quadrant_counter & Hrest%IH)%bind_Ok.
    by subst.
Qed.

(** X16.  The consistency assertion on [counter] cannot fail: whenever the
    loops over the quadrants come to their end, [counter] is the number of
    vertices.  The construction of the generator matrix can only go wrong by
    reading a vertex or a sign vector beyond its end. *)
Theorem counter_is_consistent (K : Z) (quadrant2info : gmap Quadrant QuadrantInfo) :
  cdd_generators K quadrant2info <>
    Err (AssertFailed
           "Consistency checking that counter equals the number of vertices.") /\
  forall e, cdd_generators K quadrant2info = Err e -> e = OutOfRange.
Proof.
  assert (forall e, cdd_generators K quadrant2info = Err e -> e = OutOfRange) as Hfail.
  { intros e. unfold cdd_generators.
    destruct (loop _ _ _) as [[c rows]|e'] eqn:Hloop.
    - apply project_entries_counter in Hloop as ->.
      by rewrite Ok_bind, Z.eqb_refl.
    - intros [= <-]. apply loop_Err_inv in Hloop as (entry & s1 & _ & Hrun).
      by eapply project_quadrant_Err. }
  split; [|done]. by intros Herr%Hfail.
Qed.

Lemma project_quadrant_rows_weak (K : nat) (quadrant : Quadrant) (info : QuadrantInfo)
    (done : list mpq_vector) (n : nat) :
  Forall (fun v => (K <= length quadrant)%nat /\ (S K <= length v)%nat) (V info) ->
  (length (V info) <= n)%nat ->
  project_quadrant (Z.of_nat K)
    (Z.of_nat (length done), done ++ replicate n (replicate (S K + K) 0%Q))
    (quadrant, info) =
  Ok (Z.of_nat (length done + length (V info)),
      (done ++ (embedded K quadrant <$> V info)) ++
      replicate (n - length (V info)) (replicate (S K + K) 0%Q)).
Proof.
  intros Hvs Hn. destruct (V info) as [|v vs] eqn:HV.
  - unfold project_quadrant. rewrite HV. simpl.
    by rewrite Nat.add_0_r, Nat.sub_0_r, app_nil_r.
  - rewrite <- HV in *. apply project_quadrant_rows; [| |done].
    + rewrite HV in Hvs. by apply Forall_cons in Hvs as [[? _] _].
    + eapply Forall_impl; [exact Hvs|]. by intros ? [_ ?].
Qed.

Lemma project_entries_rows_weak (K : nat) (entries : list (Quadrant * QuadrantInfo))
    (done : list mpq_vector) (n : nat) :
  Forall (fun entry =>
            Forall (fun v => (K <= length entry.1)%nat /\ (S K <= length v)%nat)
                   (V entry.2)) entries ->
  (length (concat ((fun entry => V entry.2) <$> entries)) <= n)%nat ->
  loop entries (project_quadrant (Z.of_nat K))
    (Z.of_nat (length done), done ++ replicate n (replicate (S K + K) 0%Q)) =
  Ok (Z.of_nat (length done + length (concat ((fun entry => V entry.2) <$> entries))),
      (done ++ concat ((fun entry => embedded K entry.1 <$> V entry.2) <$> entries)) ++
      replicate (n - length (concat ((fun entry => V entry.2) <$> entries)))
                (replicate (S K + K) 0%Q)).
Proof.
  revert done n. induction entries as [|[q info] entries IH]; intros done n Hwf Hn.
  - simpl. by rewrite Nat.add_0_r, Nat.sub_0_r, app_nil_r.
  - apply Forall_cons in Hwf as [Hvs Hwf]. simpl in Hvs.
    rewrite fmap_cons in Hn. rewrite !fmap_cons. cbn [concat fst snd] in Hn |- *.
    rewrite length_app in Hn |- *. cbn [loop].
    rewrite project_quadrant_rows_weak, Ok_bind by (done || lia).
    replace (Z.of_nat (length done + length (V info)))
      with (Z.of_nat (length (done ++ (embedded K q <$> V info))))
      by (rewrite length_app, length_fmap; lia).
    rewrite IH by (done || lia).
    rewrite length_app, length_fmap.
    f_equal. f_equal; [lia|]. rewrite <- !app_assoc. do 4 f_equal. lia.
Qed.

Lemma cdd_generators_embedded (K : Z) (quadrant2info : gmap Quadrant QuadrantInfo) :
  0 <= K ->
  (forall quadrant info v, quadrant2info !! quadrant = Some info -> v ∈ V info ->
     K <= Z.of_nat (length quadrant) /\ K + 1 <= Z.of_nat (length v)) ->
  cdd_generators K quadrant2info =
  Ok {| rowsize := Z.of_nat (length (concat ((fun entry => V entry.2) <$>
                                               map_to_list quadrant2info)));
        colsize := 2 * K + 1; representation := dd_Generator;
        matrix := concat ((fun entry => embedded (Z.to_nat K) entry.1 <$> V entry.2) <$>
                            map_to_list quadrant2info) |}.
Proof.
  intros HK Hwf. unfold cdd_generators.
  set (entries := map_to_list quadrant2info).
  assert (Forall (fun entry =>
            Forall (fun v => (Z.to_nat K <= length entry.1)%nat /\
                             (S (Z.to_nat K) <= length v)%nat) (V entry.2))
                 entries) as Hentries.
  { apply Forall_forall. intros [q info] Hin%elem_of_map_to_list.
    apply Forall_forall. intros v Hv. simpl.
    destruct (Hwf q info v Hin Hv). lia. }
  rewrite num_vertices_sum, Z.add_0_l.
  set (total := length (concat ((fun entry => V entry.2) <$> entries))).
  unfold dd_CreateMatrix. cbn [matrix rowsize colsize].
  replace (Z.to_nat (2 * K + 1)) with (S (Z.to_nat K) + Z.to_nat K)%nat by lia.
  rewrite Nat2Z.id.
  pose proof (project_entries_rows_weak (Z.to_nat K) entries [] total Hentries (le_n _))
    as Hloop.
  rewrite Z2Nat.id in Hloop by done. cbn [app length] in Hloop.
  change (Z.of_nat 0) with 0 in Hloop. fold total in Hloop.
  rewrite Nat.sub_diag, Nat.add_0_l in Hloop. cbn [replicate] in Hloop.
  rewrite app_nil_r in Hloop.
  by rewrite Hloop, Ok_bind, Z.eqb_refl.
Qed.

(** X17.  Where every vertex lies in the closed quadrant it is filed under,
    each row of the generator matrix is a point of the graph of ReLU: for
    every dimension i, column 1 + i + K is the ReLU of column 1 + i. *)
Theorem generators_lie_on_the_relu_graph (K : Z)
    (quadrant2info : gmap Quadrant QuadrantInfo) :
  0 <= K ->
  (forall quadrant info v, quadrant2info !! quadrant = Some info -> v ∈ V info ->
     K <= Z.of_nat (length quadrant) /\ K + 1 <= Z.of_nat (length v) /\
     mpq_in_quadrant quadrant v) ->
  exists vertices,
    cdd_generators K quadrant2info = Ok vertices /\
    forall r, r ∈ matrix vertices ->
      forall i : nat, Z.of_nat i < K ->
        exists x y, r !! (1 + i)%nat = Some x /\
                    r !! (1 + i + Z.to_nat K)%nat = Some y /\
                    (y == relu x)%Q.
Proof.
  intros HK Hwf. rewrite cdd_generators_embedded; [|done|].
  2: { intros q info v Hq Hv. destruct (Hwf q info v Hq Hv) as (? & ? & _). done. }
  eexists. split; [done|]. cbn [matrix].
  intros r (block & Hr & Hblock)%elem_of_concat i Hi.
  apply list_elem_of_fmap in Hblock as ([q info] & -> & Hin%elem_of_map_to_list).
  apply list_elem_of_fmap in Hr as (v & -> & Hv). cbn [fst snd] in *.
  destruct (Hwf q info v Hin Hv) as (Hq & Hlen & Hsigns).
  destruct (embedded_embeds (Z.to_nat K) q v ltac:(lia) ltac:(lia))
    as (_ & Hfirst & Hout).
  destruct (lookup_lt_is_Some_2 v (S i) ltac:(lia)) as [x Hx].
  destruct (lookup_lt_is_Some_2 q i ltac:(lia)) as [sign Hsign].
  specialize (Hfirst (S i) ltac:(lia)).
  specialize (Hout i sign ltac:(lia) Hsign).
  specialize (Hsigns i sign x Hsign Hx).
  change (1 + i)%nat with (S i) in *. rewrite Hx in Hfirst.
  rewrite Nat2Z.id in Hout.
  exists x. destruct sign.
  - exists 0%Q. split; [done|]. split; [done|]. unfold relu.
    destruct (Qle_bool 0 x) eqn:Hpos; [|reflexivity].
    apply Qle_bool_iff in Hpos. by apply Qle_antisym.
  - exists x. split; [done|]. split; [by rewrite Hout|]. unfold relu.
    apply Qle_bool_iff in Hsigns. by rewrite Hsigns.
Qed.

Lemma project_vertex_Ok_sizes (K : Z) (quadrant : Quadrant) (v p r : mpq_vector) :
  0 <= K ->
  project_vertex K quadrant v p = Ok r ->
  K <= Z.of_nat (length quadrant) /\ K + 1 <= Z.of_nat (length v).
Proof.
  intros HK. unfold project_vertex. intros (p1 & Hcopy & Hfill)%bind_Ok. split.
  - destruct (decide (K = 0)) as [->|HK0]; [lia|].
    destruct (loop_Ok_inv _ _ _ _ Hfill (K - 1)) as (s1 & s2 & Hstep).
    { apply elem_of_seqZ. lia. }
    apply bind_Ok in Hstep as (sign & [_ Hsign%lookup_lt_Some]%at_Ok & _). lia.
  - destruct (loop_Ok_inv _ _ _ _ Hcopy K) as (s1 & s2 & Hstep).
    { apply elem_of_seqZ. lia. }
    apply bind_Ok in Hstep as (x & [_ Hx%lookup_lt_Some]%at_Ok & _). lia.
Qed.

(** X18.  For K >= 0 the generator matrix is built exactly when every vertex
    has at least K + 1 coordinates and every quadrant that has a vertex has
    at least K signs; a quadrant without vertices is not looked at. *)
Theorem cdd_generators_returns_iff (K : Z)
    (quadrant2info : gmap Quadrant QuadrantInfo) :
  0 <= K ->
  (exists vertices, cdd_generators K quadrant2info = Ok vertices) <->
  (forall quadrant info v, quadrant2info !! quadrant = Some info -> v ∈ V info ->
     K <= Z.of_nat (length quadrant) /\ K + 1 <= Z.of_nat (length v)).
Proof.
  intros HK. split.
  - intros [vertices Hrun] q info v Hq%elem_of_map_to_list Hv.
    unfold cdd_generators in Hrun.
    apply bind_Ok in Hrun as ([c rows] & Hloop & _).
    destruct (loop_Ok_inv _ _ _ _ Hloop _ Hq) as (s1 & s2 & Hquadrant).
    unfold project_quadrant in Hquadrant.
    destruct (loop_Ok_inv _ _ _ _ Hquadrant _ Hv) as ([c1 rows1] & s4 & Hstep).
    apply bind_Ok in Hstep as (p & _ & Hstep).
    apply bind_Ok in Hstep as (p' & Hvertex & _).
    by eapply project_vertex_Ok_sizes.
  - intros Hwf. eexists. by apply cdd_generators_embedded.
Qed.

Lemma fill_output_columns_any (K : nat) (quadrant : Quadrant) (v p : mpq_vector)
    (n : nat) :
  (K <= length quadrant)%nat -> (S K <= length v)%nat ->
  (S K + K <= length p)%nat -> (n <= K)%nat ->
  exists r,
    loop (seqZ 0 (Z.of_nat n))
         (fun v_projection i =>
            sign ← at_ quadrant i;
            if bool_decide (sign = PLUS) then
              x ← at_ v (1 + i);
              set_at v_projection (1 + i + Z.of_nat K) x
            else Ok v_projection) p = Ok r /\
    length r = length p /\
    (forall i, (i < n)%nat -> quadrant !! i = Some PLUS ->
       r !! (S K + i)%nat = v !! S i) /\
    (forall j, (forall i, (i < n)%nat -> quadrant !! i = Some PLUS ->
                  j <> (S K + i)%nat) ->
       r !! j = p !! j).
Proof.
  intros Hq Hv Hp. induction n as [|n IH]; intros Hn.
  - exists p. split; [done|]. split; [done|]. split; [intros; lia | done].
  - destruct IH as (r & Hr & Hlen & Hplus & Hrest); [lia|].
    rewrite seqZ_S, loop_app, Hr, Z.add_0_l, Ok_bind by lia. cbn [loop].
    destruct (lookup_lt_is_Some_2 quadrant n ltac:(lia)) as [sign Hsign].
    destruct (lookup_lt_is_Some_2 v (S n) ltac:(lia)) as [x Hx].
    rewrite (at_nat _ _ _ Hsign), Ok_bind.
    destruct sign.
    + rewrite bool_decide_eq_false_2 by done. rewrite Ok_bind.
      exists r. split; [done|]. split; [done|]. split.
      * intros i Hi Hi'. apply Hplus; [|done].
        destruct (decide (i = n)) as [->|]; [congruence | lia].
      * intros j Hj. apply Hrest. intros i Hi. apply Hj. lia.
    + rewrite bool_decide_eq_true_2 by done.
      replace (1 + Z.of_nat n) with (Z.of_nat (S n)) by lia.
      rewrite (at_nat _ _ _ Hx), Ok_bind.
      replace (Z.of_nat (S n) + Z.of_nat K) with (Z.of_nat (S K + n)) by lia.
      rewrite set_at_nat, Ok_bind by lia.
      eexists. split; [done|]. split; [by rewrite length_insert|]. split.
      * intros i Hi Hi'. destruct (decide (i = n)) as [->|Hne].
        -- by rewrite list_lookup_insert_eq by lia.
        -- rewrite list_lookup_insert_ne by lia. apply Hplus; [lia | done].
      * intros j Hj. rewrite list_lookup_insert_ne.
        2: { intros <-. by apply (Hj n ltac:(lia) Hsign). }
        apply Hrest. intros i Hi. apply Hj. lia.
Qed.

(** X19.  [project_vertex] on any row of the right length: the first K + 1
    columns and the columns of the PLUS dimensions are overwritten from v;
    the column of a MINUS dimension and every column from 2 K + 1 on keep
    what the row held before.  The zeros of the MINUS columns are those that
    dd_CreateMatrix put there. *)
Theorem project_vertex_leaves_minus_columns (K : Z) (quadrant : Quadrant)
    (v p : mpq_vector) :
  0 <= K ->
  K <= Z.of_nat (length quadrant) ->
  K + 1 <= Z.of_nat (length v) ->
  2 * K + 1 <= Z.of_nat (length p) ->
  exists r,
    project_vertex K quadrant v p = Ok r /\
    length r = length p /\
    (forall j : nat, Z.of_nat j < K + 1 -> r !! j = v !! j) /\
    (forall (i : nat) sign, Z.of_nat i < K -> quadrant !! i = Some sign ->
       r !! (1 + i + Z.to_nat K)%nat =
       match sign with
       | PLUS => v !! (1 + i)%nat
       | MINUS => p !! (1 + i + Z.to_nat K)%nat
       end) /\
    (forall j : nat, 2 * K + 1 <= Z.of_nat j -> r !! j = p !! j).
Proof.
  intros HK Hq Hv Hp. unfold project_vertex.
  rewrite <- (Z2Nat.id K) by done. set (k := Z.to_nat K).
  replace (Z.of_nat k + 1) with (Z.of_nat (S k)) by lia.
  rewrite copy_coordinates, Ok_bind by lia.
  set (p1 := take (S k) v ++ drop (S k) p).
  assert (length p1 = length p) as Hp1.
  { unfold p1. rewrite length_app, length_take, length_drop. lia. }
  assert (forall j, (S k <= j)%nat -> p1 !! j = p !! j) as Hkeep.
  { intros j Hj. unfold p1. rewrite lookup_app_r by (rewrite length_take; lia).
    rewrite length_take, lookup_drop. f_equal. lia. }
  destruct (fill_output_columns_any k quadrant v p1 k)
    as (r & -> & Hlen & Hplus & Hrest); try lia.
  exists r. split; [done|]. split; [congruence|]. rewrite Nat2Z.id. split; [|split].
  - intros j Hj. rewrite Hrest by (intros; lia).
    unfold p1. rewrite lookup_app_l by (rewrite length_take; lia).
    apply lookup_take_lt. lia.
  - intros i sign Hi Hsign.
    replace (1 + i + k)%nat with (S k + i)%nat by lia. destruct sign.
    + rewrite Hrest; [apply Hkeep; lia|].
      intros i' _ Hsign' Heq. assert (i' = i) as -> by lia. congruence.
    + apply Hplus; [lia | done].
  - intros j Hj. rewrite Hrest by (intros; lia). apply Hkeep. lia.
Qed.

Lemma sample_vertices_in_quadrant (quadrant : Quadrant) (info : QuadrantInfo)
    (v : mpq_vector) :
  Sample.quadrants !! quadrant = Some info -> v ∈ V info ->
  2 <= Z.of_nat (length quadrant) /\ 2 + 1 <= Z.of_nat (length v) /\
  mpq_in_quadrant quadrant v.
Proof.
  intros Hin%sample_quadrants_inv Hv.
  repeat (apply elem_of_cons in Hin as [[= -> ->]|Hin];
    [simpl in Hv;
     repeat (apply elem_of_cons in Hv as [->|Hv];
       [split; [simpl; lia|]; split; [simpl; lia|];
        intros [|[|i]] sign x Hsign Hx; simpl in Hsign, Hx; simplify_eq;
        unfold Qle; simpl; lia|]);
     by apply elem_of_nil in Hv|]).
  by apply elem_of_nil in Hin.
Qed.

Lemma generators_lie_on_the_relu_graph_witness :
  exists vertices,
    cdd_generators 2 Sample.quadrants = Ok vertices /\
    forall r, r ∈ matrix vertices ->
      forall i : nat, Z.of_nat i < 2 ->
        exists x y, r !! (1 + i)%nat = Some x /\
                    r !! (1 + i + Z.to_nat 2)%nat = Some y /\
                    (y == relu x)%Q.
Proof.
  apply (generators_lie_on_the_relu_graph 2 Sample.quadrants).
  - lia.
  - exact sample_vertices_in_quadrant.
Defined.

Lemma cdd_generators_returns_iff_witness :
  (exists vertices, cdd_generators 2 Sample.quadrants = Ok vertices) <->
  (forall quadrant info v, Sample.quadrants !! quadrant = Some info -> v ∈ V info ->
     2 <= Z.of_nat (length quadrant) /\ 2 + 1 <= Z.of_nat (length v)).
Proof.
  apply (cdd_generators_returns_iff 2 Sample.quadrants). lia.
Defined.

Lemma project_vertex_leaves_minus_columns_witness :
  exists r,
    project_vertex 2 [PLUS; MINUS] (Sample.vertex 1 (-1))
                   (replicate 6 (inject_Z 7)) = Ok r /\
    length r = length (replicate 6 (inject_Z 7)) /\
    (forall j : nat, Z.of_nat j < 2 + 1 -> r !! j = Sample.vertex 1 (-1) !! j) /\
    (forall (i : nat) sign, Z.of_nat i < 2 -> [PLUS; MINUS] !! i = Some sign ->
       r !! (1 + i + Z.to_nat 2)%nat =
       match sign with
       | PLUS => Sample.vertex 1 (-1) !! (1 + i)%nat
       | MINUS => replicate 6 (inject_Z 7) !! (1 + i + Z.to_nat 2)%nat
       end) /\
    (forall j : nat, 2 * 2 + 1 <= Z.of_nat j -> r !! j = replicate 6 (inject_Z 7) !! j).
Proof.
  apply (project_vertex_leaves_minus_columns 2 [PLUS; MINUS] (Sample.vertex 1 (-1))
           (replicate 6 (inject_Z 7))); simpl; lia.
Defined.

(** ** The normalisation of the rows in krelu_with_cdd *)

Lemma collect_total {A B} (l : list A) (body : A -> result B) :
  Forall (fun x => exists y, body x = Ok y) l -> exists ys, collect l body = Ok ys.
Proof.
  induction 1 as [|x l [y Hy] _ [ys Hys]]; cbn [collect]; [by eexists|].
  rewrite Hy, Ok_bind, Hys, Ok_bind. by eexists.
Qed.

Lemma abs_maxCoeff_zeros (h : list double) :
  h <> [] -> Forall (fun x => exists s, x = S754_zero s) h ->
  abs_maxCoeff h = Ok (S754_zero false).
Proof.
  intros Hne Hzeros. destruct h as [|x h]; [done|].
  apply Forall_cons in Hzeros as [[s ->] Hzeros].
  unfold abs_maxCoeff. rewrite fmap_cons. f_equal.
  change (D.abs (S754_zero s)) with (S754_zero false). clear Hne.
  induction Hzeros as [|y h [s' ->] _ IH]; [done|].
  rewrite fmap_cons. cbn [foldl]. exact IH.
Qed.

Lemma zeros_by_zero (h : list double) :
  Forall (fun x => exists s, x = S754_zero s) h ->
  (fun x => x / S754_zero false)%D <$> h = replicate (length h) S754_nan.
Proof.
  induction 1 as [|x h [s ->] _ IH]; [done|].
  rewrite fmap_cons, IH. done.
Qed.

Section Normalisation.
Context {ext : Collaborators}.

(** X20.  Nothing guards the division of a row by its greatest absolute
    coefficient: where cddlib's answer has no empty row, [krelu_with_cdd]
    returns a matrix of the same shape, in which a row of zeros has become a
    row of NaN. *)
Theorem zero_row_becomes_nan (A : MatrixXd)
    (quadrant2info : gmap Quadrant QuadrantInfo) (vertices : dd_Matrix)
    (poly : dd_Polyhedra) (H : MatrixXd) :
  1 <= to_int (cols A - 1) <= 4 ->
  compute_quadrants_with_cdd A = Ok quadrant2info ->
  cdd_generators (to_int (cols A - 1)) quadrant2info = Ok vertices ->
  dd_DDMatrix2Poly vertices = (dd_NoError, poly) ->
  cdd2eigen (dd_CopyInequalities poly) = Ok H ->
  Forall (fun h => h <> []) (coefficients H) ->
  exists result,
    krelu_with_cdd A = Ok result /\
    cols result = cols H /\ rows result = rows H /\
    forall (i : nat) (h : list double), coefficients H !! i = Some h ->
      Forall (fun x => exists s, x = S754_zero s) h ->
      coefficients result !! i = Some (replicate (length h) S754_nan).
Proof.
  intros HK Hquadrants Hgenerators Hpoly HH Hrows. unfold krelu_with_cdd.
  destruct (Z.leb_spec 1 (to_int (cols A - 1))); [|lia].
  destruct (Z.leb_spec (to_int (cols A - 1)) 4); [|lia].
  cbn [andb]. change (ASRTF true "K should be within allowed range.") with (Ok ()).
  rewrite Ok_bind, Hquadrants, Ok_bind, Hgenerators, Ok_bind, Hpoly.
  rewrite bool_decide_eq_true_2 by done.
  match goal with |- context [ASRTF true ?msg] => change (ASRTF true msg) with (Ok ()) end.
  rewrite Ok_bind, HH, Ok_bind.
  destruct (collect_total (coefficients H)
              (fun h => abs_coef ← abs_maxCoeff h; Ok ((fun x => x / abs_coef)%D <$> h)))
    as [normalized Hnormalized].
  { eapply Forall_impl; [exact Hrows|]. intros [|x h] Hne; [done|]. by eexists. }
  rewrite Hnormalized, Ok_bind. eexists. split; [done|].
  apply collect_Ok in Hnormalized. split; [done|]. split.
  { unfold rows. cbn [coefficients]. by rewrite (Forall2_length _ _ _ Hnormalized). }
  intros i h Hh Hzeros. cbn [coefficients].
  destruct (Forall2_lookup_l _ _ _ _ _ Hnormalized Hh) as (h' & -> & Hrow).
  rewrite abs_maxCoeff_zeros, Ok_bind in Hrow.
  - injection Hrow as <-. by rewrite zeros_by_zero.
  - eapply Forall_lookup_1 in Hrows; eauto.
  - done.
Qed.

End Normalisation.

Lemma zero_row_becomes_nan_witness :
  let H := Matrix 5 (map Sample.convert <$>
                       (matrix Sample.facets ++ [replicate 5 0%Q])) in
  exists result,
    krelu_with_cdd (ext := zero_row_collaborators) Sample.A2 = Ok result /\
    cols result = cols H /\ rows result = rows H /\
    forall (i : nat) (h : list double), coefficients H !! i = Some h ->
      Forall (fun x => exists s, x = S754_zero s) h ->
      coefficients result !! i = Some (replicate (length h) S754_nan).
Proof.
  apply (zero_row_becomes_nan (ext := zero_row_collaborators) Sample.A2
           Sample.quadrants
           (default (dd_CreateMatrix 0 0) (match cdd_generators 2 Sample.quadrants with
                                           | Ok m => Some m
                                           | Err _ => None
                                           end))
           (default (dd_CreateMatrix 0 0) (match cdd_generators 2 Sample.quadrants with
                                           | Ok m => Some m
                                           | Err _ => None
                                           end))
           (Matrix 5 (map Sample.convert <$>
                        (matrix Sample.facets ++ [replicate 5 0%Q])))).
  - vm_compute. split; discriminate.
  - reflexivity.
  - by vm_compute.
  - reflexivity.
  - reflexivity.
  - repeat constructor; discriminate.
Defined.
